(** * migrate_objects.py: copying storage objects between two projects

    A shallow embedding of [src/migrate_objects.py].  The script has two
    parts, and both are modelled:

    - lines 3-25 (imports, environment look-ups, the four constants and the
      two [create_client] calls) are kept as a list of statements, run by a
      small interpreter that resolves names in the module's globals the way
      Python does, so that the order of the statements matters;
    - lines 28-51 (the migration loop) are written as functions in a state
      and exception monad over a [world]: the two remote projects, the
      working directory, standard output and the log of calls made. *)

From Stdlib Require Import Strings.String Strings.Byte Lists.List.
From stdpp Require Import gmap strings list fin_maps.

Open Scope string_scope.
Open Scope list_scope.

(** ** Data *)

Abbreviation bytes := (list byte).

(** What lives in a storage project. *)
Record object := { oname : string; ocontent : bytes }.
Record bucket := { bname : string; bpublic : bool; bobjects : list object }.
Abbreviation project := (list bucket).

(** What the listing calls hand to the script: [bucket.name],
    [bucket.public] and [obj['name']]. *)
Record Bucket := { name : string; public : bool }.
Record Obj := { obj_name : string }.

(** Python values that occur at module level. *)
Inductive value :=
| VNone
| VBool (b : bool)
| VStr (s : string)
| VModule (m : string)
| VFunction (m f : string)
| VBuiltin (f : string)
| VClient (url key : value).

Inductive exn :=
| NameError (x : string)
| ModuleNotFoundError (m : string)
| ImportError (m x : string)
| AttributeError (x : string)
| TypeError (msg : string)
| OSError (msg : string)
| FileNotFoundError (path : string)
| StorageError (msg : string).

(** [str(e)] *)
Definition str (e : exn) : string :=
  match e with
  | NameError x => "name '" +:+ x +:+ "' is not defined"
  | ModuleNotFoundError m => "No module named '" +:+ m +:+ "'"
  | ImportError m x => "cannot import name '" +:+ x +:+ "' from '" +:+ m +:+ "'"
  | AttributeError x => "object has no attribute '" +:+ x +:+ "'"
  | TypeError msg => msg
  | OSError msg => msg
  | FileNotFoundError path =>
      "[Errno 2] No such file or directory: '" +:+ path +:+ "'"
  | StorageError msg => msg
  end.

Inductive client := old_supabase_client | new_supabase_client.

Inductive request :=
| ListBuckets
| ListObjects (b : string)
| CreateBucket (b : string) (pub : bool)
| Download (b path : string)
| Upload (b path file : string).

Inductive event :=
| CreateClient (url key : value)
| Storage (c : client) (r : request).

(** A fault injected into a call that leaves the process: [fmsg] is the text
    of the exception, [fpartial] the number of bytes that reached the disk
    when the call is a file write. *)
Record fault := { fmsg : string; fpartial : nat }.

(** The world the script runs in.  [pending] scripts the faults of the
    fallible calls to come, one entry per call, [None] for no fault; when it
    is exhausted nothing fails any more.  [calls] is in the order the calls
    were made. *)
Record world := {
  old_project : project;
  new_project : project;
  files : gmap string bytes;
  stdout : list string;
  calls : list event;
  pending : list (option fault)
}.

Definition project_of (c : client) (w : world) : project :=
  match c with
  | old_supabase_client => old_project w
  | new_supabase_client => new_project w
  end.

Definition with_project (c : client) (p : project) (w : world) : world :=
  match c with
  | old_supabase_client =>
      {| old_project := p; new_project := new_project w; files := files w;
         stdout := stdout w; calls := calls w; pending := pending w |}
  | new_supabase_client =>
      {| old_project := old_project w; new_project := p; files := files w;
         stdout := stdout w; calls := calls w; pending := pending w |}
  end.

Definition with_files (fs : gmap string bytes) (w : world) : world :=
  {| old_project := old_project w; new_project := new_project w; files := fs;
     stdout := stdout w; calls := calls w; pending := pending w |}.

Definition with_stdout (out : list string) (w : world) : world :=
  {| old_project := old_project w; new_project := new_project w;
     files := files w; stdout := out; calls := calls w;
     pending := pending w |}.

Definition with_calls (cs : list event) (w : world) : world :=
  {| old_project := old_project w; new_project := new_project w;
     files := files w; stdout := stdout w; calls := cs;
     pending := pending w |}.

Definition with_pending (fs : list (option fault)) (w : world) : world :=
  {| old_project := old_project w; new_project := new_project w;
     files := files w; stdout := stdout w; calls := calls w;
     pending := fs |}.

(** ** The monad: state passing over [world], with exceptions *)

Inductive result (A : Type) :=
| Ok (a : A)
| Err (e : exn).
Arguments Ok {A} a.
Arguments Err {A} e.

Definition M (A : Type) : Type := world -> result A * world.

#[global] Instance M_ret : MRet M := fun A a w => (Ok a, w).
#[global] Instance M_bind : MBind M := fun A B k m w =>
  match m w with
  | (Ok a, w1) => k a w1
  | (Err e, w1) => (Err e, w1)
  end.

Definition raise {A} (e : exn) : M A := fun w => (Err e, w).

(** [try: body  except: handler] *)
Definition try_except (body : M unit) (handler : exn -> M unit) : M unit :=
  fun w =>
    match body w with
    | (Ok tt, w1) => (Ok tt, w1)
    | (Err e, w1) => handler e w1
    end.

(** [for x in xs: body] *)
Fixpoint for_each {A} (xs : list A) (body : A -> M unit) : M unit :=
  match xs with
  | [] => mret tt
  | x :: rest => body x;; for_each rest body
  end.

(** The world with one more line on standard output. *)
Definition logged (line : string) (w : world) : world :=
  with_stdout (stdout w ++ [line]) w.

Definition print (line : string) : M unit :=
  fun w => (Ok tt, logged line w).

(** The world with one more call made. *)
Definition recorded (e : event) (w : world) : world :=
  with_calls (calls w ++ [e]) w.

Definition record (e : event) : M unit :=
  fun w => (Ok tt, recorded e w).

Definition next_fault : M (option fault) :=
  fun w =>
    match pending w with
    | [] => (Ok None, w)
    | f :: rest => (Ok f, with_pending rest w)
    end.

(** ** The storage service

    The client library ([supabase]) is not part of the repository.  Its
    five operations are modelled on a project held as a list of buckets;
    each can also be hit by a fault of the network, whatever the project
    holds. *)

Definition find_bucket (p : project) (b : string) : option bucket :=
  find (fun k => String.eqb (bname k) b) p.

Definition find_object (k : bucket) (path : string) : option object :=
  find (fun o => String.eqb (oname o) path) (bobjects k).

Definition lookup_object (p : project) (b path : string) : option bytes :=
  match find_bucket p b with
  | Some k => option_map ocontent (find_object k path)
  | None => None
  end.

(** Modelled from the spec: [list_buckets()] returns all buckets of the
    project. *)
Definition serve_list_buckets (p : project) : string + list Bucket * project :=
  inr (map (fun k => {| name := bname k; public := bpublic k |}) p, p).

(** Modelled from the spec: [create_bucket(name, public)] creates a bucket
    and fails if a bucket with that name already exists. *)
Definition serve_create_bucket (b : string) (pub : bool) (p : project)
  : string + unit * project :=
  match find_bucket p b with
  | Some _ => inl "The resource already exists"
  | None => inr (tt, p ++ [{| bname := b; bpublic := pub; bobjects := [] |}])
  end.

(** Modelled from the spec: [list_objects(bucket_name)] returns the object
    descriptors of the bucket and fails if the bucket does not exist. *)
Definition serve_list (b : string) (p : project)
  : string + list Obj * project :=
  match find_bucket p b with
  | Some k => inr (map (fun o => {| obj_name := oname o |}) (bobjects k), p)
  | None => inl "Bucket not found"
  end.

(** Modelled from the spec: [download(bucket_name, object_name)] returns the
    bytes of the object and fails if the object does not exist. *)
Definition serve_download (b path : string) (p : project)
  : string + bytes * project :=
  match lookup_object p b path with
  | Some data => inr (data, p)
  | None => inl "Object not found"
  end.

(** Modelled from the spec: [upload(bucket_name, object_name, ...)] stores
    the object in the bucket and fails if an object with that name already
    exists there (or if there is no such bucket). *)
Fixpoint put_object (b path : string) (data : bytes) (p : project)
  : string + project :=
  match p with
  | [] => inl "Bucket not found"
  | k :: rest =>
      if String.eqb (bname k) b then
        match find_object k path with
        | Some _ => inl "The resource already exists"
        | None =>
            inr ({| bname := bname k; bpublic := bpublic k;
                    bobjects := bobjects k
                                ++ [{| oname := path; ocontent := data |}] |}
                 :: rest)
        end
      else
        match put_object b path data rest with
        | inl msg => inl msg
        | inr rest' => inr (k :: rest')
        end
  end.

Definition serve_upload (b path : string) (data : bytes) (p : project)
  : string + unit * project :=
  match put_object b path data p with
  | inl msg => inl msg
  | inr p' => inr (tt, p')
  end.

(** The project behind client [c] serving a request. *)
Definition served {A} (c : client) (serve : project -> string + A * project)
  : M A :=
  fun w =>
    match serve (project_of c w) with
    | inl msg => (Err (StorageError msg), w)
    | inr (a, p) => (Ok a, with_project c p w)
    end.

(** One request of client [c]: the call is recorded, it may be hit by a
    fault, and otherwise the project behind [c] serves it. *)
Definition storage_call {A} (c : client) (r : request)
    (serve : project -> string + A * project) : M A :=
  record (Storage c r);;
  f ← next_fault;
  match f with
  | Some f => raise (StorageError (fmsg f))
  | None => served c serve
  end.

(** [c.storage().list_buckets()] *)
Definition list_buckets (c : client) : M (list Bucket) :=
  storage_call c ListBuckets serve_list_buckets.

(** [c.storage().create_bucket(b, public=pub)] *)
Definition create_bucket (c : client) (b : string) (pub : bool) : M unit :=
  storage_call c (CreateBucket b pub) (serve_create_bucket b pub).

(** [c.storage().from_(b).list()] *)
Definition list_objects (c : client) (b : string) : M (list Obj) :=
  storage_call c (ListObjects b) (serve_list b).

(** [c.storage().from_(b).download(path)] *)
Definition download (c : client) (b path : string) : M bytes :=
  storage_call c (Download b path) (serve_download b path).

(** [c.storage().from_(b).upload(path, file)], [file] being the name of a
    local file: its content is what is sent. *)
Definition upload (c : client) (b path file : string) : M unit :=
  fun w =>
    match files w !! file with
    | Some data =>
        storage_call c (Upload b path file) (serve_upload b path data) w
    | None =>
        (record (Storage c (Upload b path file));;
         raise (FileNotFoundError file)) w
    end.

(** ** The working directory *)

Definition put_file (path : string) (data : bytes) : M unit :=
  fun w => (Ok tt, with_files (<[path := data]> (files w)) w).

(** [open(path, 'wb+')]: creates the file or truncates it. *)
Definition open_wb (path : string) : M unit :=
  f ← next_fault;
  match f with
  | Some f => raise (OSError (fmsg f))
  | None => put_file path []
  end.

(** [f.write(data)] on a file just opened with ['wb+']. *)
Definition write (path : string) (data : bytes) : M unit :=
  f ← next_fault;
  match f with
  | Some f => put_file path (take (fpartial f) data);; raise (OSError (fmsg f))
  | None => put_file path data
  end.

(** [open(path, 'rb+')]: the file has to exist.  No other cause of failure
    is modelled: a file that is there is taken to be readable and writable
    by the process, as a file is that the process has itself created. *)
Definition open_rb (path : string) : M unit :=
  fun w =>
    match files w !! path with
    | Some _ => (Ok tt, w)
    | None => (Err (FileNotFoundError path), w)
    end.

(** [os.path.exists(path)] *)
Definition exists_ (path : string) : M bool :=
  fun w => (Ok (bool_decide (is_Some (files w !! path))), w).

(** [os.remove(path)] *)
Definition remove (path : string) : M unit :=
  fun w =>
    match files w !! path with
    | Some _ => (Ok tt, with_files (delete path (files w)) w)
    | None => (Err (FileNotFoundError path), w)
    end.

(** [os.path.abspath(path)]: files are keyed by their name in the working
    directory, which is where a relative name and its absolute form meet. *)
Definition abspath (path : string) : string := path.

(** ** Module level, lines 3-25 *)

(** The statements of lines 3-25 are calls with names or literals as
    arguments, assignments and imports. *)
Inductive atom :=
| Lit (s : string)
| Name (x : string).

Inductive callee :=
| CName (f : string)
| CAttr (x attr : string).

Inductive expr :=
| EAtom (a : atom)
| ECall (f : callee) (args : list atom).

Inductive stmt :=
| SImportFrom (m x : string)
| SImport (m : string)
| SExpr (e : expr)
| SAssign (x : string) (e : expr).

(** The interpreter's own state: the module's globals, the environment of
    the process and the variables of the [.env] file, if there is one. *)
Record process := {
  globals : gmap string value;
  environ : gmap string string;
  dotenv_file : gmap string string
}.

Definition bind_global (x : string) (v : value) (p : process) : process :=
  {| globals := <[x := v]> (globals p); environ := environ p;
     dotenv_file := dotenv_file p |}.

(** The built-in names the script reads. *)
Definition builtins : list string := ["print"; "open"; "str"; "Exception"].

(** The modules the script imports, with the names it takes from them. *)
Definition module_names (m : string) : option (list string) :=
  if String.eqb m "dotenv" then Some ["load_dotenv"]
  else if String.eqb m "supabase" then Some ["create_client"]
  else if String.eqb m "os" then Some ["getenv"; "path"; "remove"]
  else None.

(** A name is looked up in the globals, then among the built-ins. *)
Definition lookup_name (x : string) (p : process) : M value :=
  match globals p !! x with
  | Some v => mret v
  | None =>
      if existsb (String.eqb x) builtins then mret (VBuiltin x)
      else raise (NameError x)
  end.

Definition eval_atom (a : atom) (p : process) : M value :=
  match a with
  | Lit s => mret (VStr s)
  | Name x => lookup_name x p
  end.

Fixpoint eval_atoms (l : list atom) (p : process) : M (list value) :=
  match l with
  | [] => mret []
  | a :: rest => v ← eval_atom a p; vs ← eval_atoms rest p; mret (v :: vs)
  end.

Definition eval_callee (f : callee) (p : process) : M value :=
  match f with
  | CName x => lookup_name x p
  | CAttr x attr =>
      v ← lookup_name x p;
      match v with
      | VModule m =>
          match module_names m with
          | Some xs =>
              if existsb (String.eqb attr) xs then mret (VFunction m attr)
              else raise (AttributeError attr)
          | None => raise (AttributeError attr)
          end
      | _ => raise (AttributeError attr)
      end
  end.

(** [load_dotenv()]: the variables of the file are added to the environment,
    those already set keep their value. *)
Definition load_dotenv (p : process) : process :=
  {| globals := globals p; environ := environ p ∪ dotenv_file p;
     dotenv_file := dotenv_file p |}.

(** [os.getenv(k)] *)
Definition getenv (k : string) (p : process) : value :=
  match environ p !! k with
  | Some v => VStr v
  | None => VNone
  end.

(** [create_client(url, key)]: a client bound to the project at [url],
    authorised by [key]; the construction is recorded and, like every call
    into the library, can fail. *)
Definition create_client (url key : value) : M value :=
  record (CreateClient url key);;
  f ← next_fault;
  match f with
  | Some f => raise (StorageError (fmsg f))
  | None => mret (VClient url key)
  end.

Definition is_function (m f : string) (v : value) : bool :=
  match v with
  | VFunction m' f' => String.eqb m' m && String.eqb f' f
  | _ => false
  end.

Definition call (f : value) (args : list value) (p : process)
  : M (value * process) :=
  if is_function "dotenv" "load_dotenv" f then
    match args with
    | [] => mret (VBool (bool_decide (dotenv_file p ≠ ∅)), load_dotenv p)
    | _ => raise (TypeError "load_dotenv: unexpected arguments")
    end
  else if is_function "os" "getenv" f then
    match args with
    | [VStr k] => mret (getenv k p, p)
    | _ => raise (TypeError "getenv: unexpected arguments")
    end
  else if is_function "supabase" "create_client" f then
    match args with
    | [url; key] => c ← create_client url key; mret (c, p)
    | _ => raise (TypeError "create_client: unexpected arguments")
    end
  else raise (TypeError "object is not callable").

Definition eval (e : expr) (p : process) : M (value * process) :=
  match e with
  | EAtom a => v ← eval_atom a p; mret (v, p)
  | ECall f args =>
      fv ← eval_callee f p;
      vs ← eval_atoms args p;
      call fv vs p
  end.

Definition exec_stmt (s : stmt) (p : process) : M process :=
  match s with
  | SImportFrom m x =>
      match module_names m with
      | Some xs =>
          if existsb (String.eqb x) xs
          then mret (bind_global x (VFunction m x) p)
          else raise (ImportError m x)
      | None => raise (ModuleNotFoundError m)
      end
  | SImport m =>
      match module_names m with
      | Some _ => mret (bind_global m (VModule m) p)
      | None => raise (ModuleNotFoundError m)
      end
  | SExpr e => r ← eval e p; mret (snd r)
  | SAssign x e => r ← eval e p; mret (bind_global x (fst r) (snd r))
  end.

Fixpoint exec (ss : list stmt) (p : process) : M process :=
  match ss with
  | [] => mret p
  | s :: rest => p1 ← exec_stmt s p; exec rest p1
  end.

(** Lines 13-16. *)
Definition OLD_DB_URL : string := "https://foodshare_project_ref.supabase.co".
Definition NEW_DB_URL : string := "https://postgres_project_ref.supabase.co".
Definition OLD_SERVICE_KEY : string := "foodshare_service_key".
Definition NEW_SERVICE_KEY : string := "postgres_service_key".

(** Lines 3-25, in the order of the file. *)
Definition prelude : list stmt :=
  [ SImportFrom "dotenv" "load_dotenv";                            (* 3 *)
    SExpr (ECall (CName "load_dotenv") []);                        (* 5 *)
    SAssign "foodshare_project_ref"
      (ECall (CAttr "os" "getenv") [Lit "foodshare_project_ref"]); (* 6 *)
    SAssign "postgres_project_ref"
      (ECall (CAttr "os" "getenv") [Lit "postgres_project_ref"]);  (* 7 *)
    SAssign "foodshare_service_key"
      (ECall (CAttr "os" "getenv") [Lit "foodshare_service_key"]); (* 8 *)
    SAssign "postgres_service_key"
      (ECall (CAttr "os" "getenv") [Lit "postgres_service_key"]);  (* 9 *)
    SAssign "OLD_DB_URL" (EAtom (Lit OLD_DB_URL));                 (* 13 *)
    SAssign "NEW_DB_URL" (EAtom (Lit NEW_DB_URL));                 (* 14 *)
    SAssign "OLD_SERVICE_KEY" (EAtom (Lit OLD_SERVICE_KEY));       (* 15 *)
    SAssign "NEW_SERVICE_KEY" (EAtom (Lit NEW_SERVICE_KEY));       (* 16 *)
    SImportFrom "supabase" "create_client";                        (* 19 *)
    SImport "os";                                                  (* 20 *)
    SAssign "filedata" (EAtom (Lit EmptyString));                  (* 21 *)
    SAssign "old_supabase_client"
      (ECall (CName "create_client")
         [Name "OLD_DB_URL"; Name "OLD_SERVICE_KEY"]);             (* 24 *)
    SAssign "new_supabase_client"
      (ECall (CName "create_client")
         [Name "NEW_DB_URL"; Name "NEW_SERVICE_KEY"])              (* 25 *)
  ].

(** ** The migration loop, lines 28-51 *)

(** Lines 39-42: the body of the first [try]. *)
Definition download_block (bucket : Bucket) (obj : Obj) : M unit :=
  open_wb (obj_name obj);;
  res ← download old_supabase_client (name bucket) (obj_name obj);
  write (obj_name obj) res.

(** Lines 46-50: the body of the second [try]. *)
Definition upload_block (bucket : Bucket) (obj : Obj) : M unit :=
  open_rb (obj_name obj);;
  upload new_supabase_client (name bucket) (obj_name obj) (obj_name obj);;
  present ← exists_ (abspath (obj_name obj));
  if (present : bool) then remove (abspath (obj_name obj)) else mret tt.

(** Lines 38-44: the first [try] statement. *)
Definition download_try (bucket : Bucket) (obj : Obj) : M unit :=
  try_except (download_block bucket obj)
    (fun e => print ("error downloading " +:+ str e)).

(** Lines 45-51: the second [try] statement. *)
Definition upload_try (bucket : Bucket) (obj : Obj) : M unit :=
  try_except (upload_block bucket obj)
    (fun e => print ("error uploading | " +:+ str e)).

(** Lines 37-51: the body of [for obj in objects]. *)
Definition object_body (bucket : Bucket) (obj : Obj) : M unit :=
  print (obj_name obj);;
  download_try bucket obj;;
  upload_try bucket obj.

(** Lines 32-35: the [try] statement around [create_bucket]. *)
Definition create_try (bucket : Bucket) : M unit :=
  try_except
    (create_bucket new_supabase_client (name bucket) (public bucket))
    (fun _ => print "unable to create bucket").

(** Lines 30-51: the body of [for bucket in buckets]. *)
Definition bucket_body (bucket : Bucket) : M unit :=
  print ("Copying objects from " +:+ name bucket);;
  objects ← list_objects old_supabase_client (name bucket);
  create_try bucket;;
  for_each objects (object_body bucket).

(** Lines 28-51. *)
Definition migrate : M unit :=
  buckets ← list_buckets old_supabase_client;
  for_each buckets bucket_body.

(** The whole file, started in process [p]. *)
Definition script (p : process) : M unit :=
  exec prelude p;; migrate.

(** What [python migrate_objects.py] starts from: the globals of a fresh
    [__main__] module. *)
Definition fresh_globals : gmap string value :=
  {[ "__name__" := VStr "__main__" ]}.

Definition main (env dotenv : gmap string string) : M unit :=
  script {| globals := fresh_globals; environ := env; dotenv_file := dotenv |}.

(** * Vocabulary of the properties *)

(** A computation [keeps] the relation [R] when every run relates the world
    it starts in to the one it ends in, whether it returns or raises. *)
Definition keeps (R : world -> world -> Prop) {A} (m : M A) : Prop :=
  forall w, R w (snd (m w)).

(** The requests that read. *)
Definition is_read (r : request) : bool :=
  match r with
  | ListBuckets | ListObjects _ | Download _ _ => true
  | CreateBucket _ _ | Upload _ _ _ => false
  end.

(** An event that leaves the source project as it is: anything but a
    bucket creation or an upload through [old_supabase_client]. *)
Definition spares_source (e : event) : bool :=
  match e with
  | Storage old_supabase_client r => is_read r
  | _ => true
  end.

(** From [w] to [w']: the source project is the same, and the calls made in
    between all spare it. *)
Definition source_frame (w w' : world) : Prop :=
  old_project w' = old_project w /\
  exists tr, calls w' = calls w ++ tr /\ forallb spares_source tr = true.

(** [v] is a module in which [getenv] is found. *)
Definition has_getenv (v : value) : bool :=
  match v with
  | VModule m =>
      match module_names m with
      | Some xs => existsb (String.eqb "getenv") xs
      | None => false
      end
  | _ => false
  end.

(** What lines 3-25 do to the world, as a function of the globals the file
    is started with: the environment and the [.env] file do not occur. *)
Definition prelude_effect (g : gmap string value) : M unit :=
  match g !! "os" with
  | None => raise (NameError "os")
  | Some v =>
      if has_getenv v then
        create_client (VStr OLD_DB_URL) (VStr OLD_SERVICE_KEY);;
        create_client (VStr NEW_DB_URL) (VStr NEW_SERVICE_KEY);;
        mret tt
      else raise (AttributeError "getenv")
  end.

(** The two calls of lines 24 and 25, with their arguments. *)
Definition client_constructions : list event :=
  [ CreateClient (VStr OLD_DB_URL) (VStr OLD_SERVICE_KEY);
    CreateClient (VStr NEW_DB_URL) (VStr NEW_SERVICE_KEY) ].

(** Taking the next entry of the fault script. *)
Definition faulted (w : world) : option fault * world :=
  match pending w with
  | [] => (None, w)
  | f :: rest => (f, with_pending rest w)
  end.

(** The calls of the object loop: downloads from the source and uploads to
    the destination. *)
Definition is_transfer (e : event) : bool :=
  match e with
  | Storage old_supabase_client (Download _ _) => true
  | Storage new_supabase_client (Upload _ _ _) => true
  | _ => false
  end.

(** From [w] to [w']: the calls made in between all satisfy [ok]. *)
Definition calls_extend (ok : event -> bool) (w w' : world) : Prop :=
  exists tr, calls w' = calls w ++ tr /\ forallb ok tr = true.

(** From [w] to [w']: every object the destination project has in [w] it
    has in [w'], with the same bytes. *)
Definition dest_grows (w w' : world) : Prop :=
  forall b path data,
    lookup_object (new_project w) b path = Some data ->
    lookup_object (new_project w') b path = Some data.

(** ** A concrete project *)

Definition photos : Bucket := {| name := "photos"; public := true |}.
Definition a_jpg : Obj := {| obj_name := "a.jpg" |}.

(** The source: the public bucket [photos] with two objects. *)
Definition source_photos : project :=
  [ {| bname := "photos"; bpublic := true;
       bobjects := [ {| oname := "a.jpg"; ocontent := [x01; x02] |};
                     {| oname := "b.jpg"; ocontent := [x03] |} ] |} ].

(** A destination that has the bucket already, empty. *)
Definition empty_photos : project :=
  [ {| bname := "photos"; bpublic := true; bobjects := [] |} ].

Definition timeout : fault := {| fmsg := "timeout"; fpartial := 0 |}.

Definition start (dest : project) (faults : list (option fault)) : world :=
  {| old_project := source_photos; new_project := dest; files := ∅;
     stdout := []; calls := []; pending := faults |}.

(** The claim of C7 on a log of calls: every listing of the objects of a
    bucket has an attempt to create that bucket before it. *)
Definition creation_precedes_listing (tr : list event) : Prop :=
  forall i b,
    tr !! i = Some (Storage old_supabase_client (ListObjects b)) ->
    exists j pub,
      j < i /\ tr !! j = Some (Storage new_supabase_client (CreateBucket b pub)).

(** A process in which [os] is bound before the file starts, so that the
    file gets as far as the loop. *)
Definition with_os : process :=
  {| globals := {[ "os" := VModule "os" ]}; environ := ∅; dotenv_file := ∅ |}.

(** ** Further vocabulary *)

(** What [list_buckets] and [list] hand over for a bucket and an object. *)
Definition describe_bucket (k : bucket) : Bucket :=
  {| name := bname k; public := bpublic k |}.

Definition describe_object (o : object) : Obj := {| obj_name := oname o |}.

(** Name and visibility of the buckets of a project, in order. *)
Definition headers (p : project) : list (string * bool) :=
  map (fun k => (bname k, bpublic k)) p.

(** The names of all objects of a project, bucket after bucket. *)
Definition all_object_names (p : project) : list string :=
  concat (map (fun k => map oname (bobjects k)) p).

(** The working directory after the files of the given names are removed. *)
Definition remove_all (names : list string) (fs : gmap string bytes)
  : gmap string bytes :=
  fold_left (fun fs n => delete n fs) names fs.

(** A project as the service keeps it: no two buckets of one name, and in a
    bucket no two objects of one name. *)
Definition well_formed (p : project) : Prop :=
  NoDup (map bname p) /\
  Forall (fun k => NoDup (map oname (bobjects k))) p.

(** The two listing requests. *)
Definition is_listing (r : request) : bool :=
  match r with
  | ListBuckets | ListObjects _ => true
  | _ => false
  end.

(** From [w] to [w']: the source is the same and the destination has the
    same buckets, with the same visibility, in the same order. *)
Definition same_buckets (w w' : world) : Prop :=
  old_project w' = old_project w /\
  headers (new_project w') = headers (new_project w).

(** From [w] to [w']: the source is the same, and the destination has the
    buckets it had, followed by buckets that have the name and the
    visibility of buckets of the source. *)
Definition buckets_added_from_source (w w' : world) : Prop :=
  old_project w' = old_project w /\
  exists added,
    headers (new_project w') = headers (new_project w) ++ added /\
    incl added (headers (old_project w)).

(** The destination has every bucket and every object of the source, by
    name. *)
Definition already_migrated (w : world) : Prop :=
  forall k, In k (old_project w) ->
    is_Some (find_bucket (new_project w) (bname k)) /\
    forall o, In o (bobjects k) ->
      is_Some (lookup_object (new_project w) (bname k) (oname o)).

(** A destination with one bucket of another name. *)
Definition empty_photos_docs : project :=
  [ {| bname := "docs"; bpublic := false; bobjects := [] |} ].

(** * Properties *)

(** ** Running the monad *)

Lemma bind_run {A B} (m : M A) (k : A -> M B) (w : world) :
  (m ≫= k) w =
  match m w with
  | (Ok a, w1) => k a w1
  | (Err e, w1) => (Err e, w1)
  end.
Proof. reflexivity. Qed.


Lemma for_each_app {A} (xs ys : list A) (body : A -> M unit) w :
  for_each (xs ++ ys) body w =
  match for_each xs body w with
  | (Ok _, w1) => for_each ys body w1
  | (Err e, w1) => (Err e, w1)
  end.
Proof.
  revert w. induction xs as [|x xs IH]; intros w; simpl.
  - reflexivity.
  - rewrite !bind_run. destruct (body x w) as [[[]|e] w1]; auto.
Qed.

(** ** Steps that keep a relation between the world before and after

    Below, [R] is any reflexive and transitive relation on worlds. *)
Section Keeps.
Variable R : world -> world -> Prop.
Hypothesis R_refl : forall w, R w w.
Hypothesis R_trans : forall w1 w2 w3, R w1 w2 -> R w2 w3 -> R w1 w3.

Local Abbreviation keeps := (keeps R).

Lemma keeps_ret {A} (a : A) : keeps (mret a).
Proof. intros w. apply R_refl. Qed.

Lemma keeps_raise {A} (e : exn) : keeps (@raise A e).
Proof. intros w. apply R_refl. Qed.

Lemma keeps_bind {A B} (m : M A) (k : A -> M B) :
  keeps m -> (forall a, keeps (k a)) -> keeps (m ≫= k).
Proof.
  intros Hm Hk w. rewrite bind_run. specialize (Hm w).
  destruct (m w) as [[a|e] w1]; simpl in *; [|exact Hm].
  eapply R_trans; [exact Hm | apply Hk].
Qed.

Lemma keeps_try body handler :
  keeps body -> (forall e, keeps (handler e)) ->
  keeps (try_except body handler).
Proof.
  intros Hb Hh w. unfold try_except. specialize (Hb w).
  destruct (body w) as [[[]|e] w1]; simpl in *; [exact Hb|].
  eapply R_trans; [exact Hb | apply Hh].
Qed.

Lemma keeps_for_each {A} (xs : list A) (body : A -> M unit) :
  (forall x, keeps (body x)) -> keeps (for_each xs body).
Proof.
  intros Hb. induction xs as [|x xs IH]; simpl.
  - apply keeps_ret.
  - apply keeps_bind; auto.
Qed.

(** The primitives, under the assumptions on [R] that each needs. *)
Hypothesis R_stdout : forall out w, R w (with_stdout out w).
Hypothesis R_pending : forall fs w, R w (with_pending fs w).
Hypothesis R_files : forall fs w, R w (with_files fs w).

Lemma keeps_print line : keeps (print line).
Proof. intros w. apply R_stdout. Qed.

Lemma keeps_next_fault : keeps next_fault.
Proof.
  intros w. unfold next_fault. destruct (pending w); simpl; auto.
Qed.

Lemma keeps_put_file path data : keeps (put_file path data).
Proof. intros w. apply R_files. Qed.

Lemma keeps_open_wb path : keeps (open_wb path).
Proof.
  apply keeps_bind; [apply keeps_next_fault|].
  intros [f|]; [apply keeps_raise | apply keeps_put_file].
Qed.

Lemma keeps_write path data : keeps (write path data).
Proof.
  apply keeps_bind; [apply keeps_next_fault|].
  intros [f|]; [|apply keeps_put_file].
  apply keeps_bind; [apply keeps_put_file | intros _; apply keeps_raise].
Qed.

Lemma keeps_open_rb path : keeps (open_rb path).
Proof. intros w. unfold open_rb. destruct (files w !! path); simpl; auto. Qed.

Lemma keeps_exists path : keeps (exists_ path).
Proof. intros w. apply R_refl. Qed.

Lemma keeps_remove path : keeps (remove path).
Proof. intros w. unfold remove. destruct (files w !! path); simpl; auto. Qed.

Lemma keeps_storage_call {A} c r (serve : project -> string + A * project) :
  keeps (record (Storage c r)) ->
  keeps (served c serve) ->
  keeps (storage_call c r serve).
Proof.
  intros Hr Hs. unfold storage_call.
  apply keeps_bind; [exact Hr | intros _].
  apply keeps_bind; [apply keeps_next_fault|].
  intros [f|]; [apply keeps_raise | exact Hs].
Qed.

Lemma keeps_upload c b path file :
  keeps (record (Storage c (Upload b path file))) ->
  (forall data, keeps (served c (serve_upload b path data))) ->
  keeps (upload c b path file).
Proof.
  intros Hr Hs w. unfold upload. destruct (files w !! file) as [data|].
  - apply keeps_storage_call; auto.
  - apply keeps_bind; [exact Hr | intros _; apply keeps_raise].
Qed.

(** The loop keeps [R] as soon as the five requests it makes do. *)
Hypothesis R_list_buckets :
  keeps (list_buckets old_supabase_client).
Hypothesis R_list_objects :
  forall b, keeps (list_objects old_supabase_client b).
Hypothesis R_download :
  forall b path, keeps (download old_supabase_client b path).
Hypothesis R_create_bucket :
  forall b pub, keeps (create_bucket new_supabase_client b pub).
Hypothesis R_upload :
  forall b path file, keeps (upload new_supabase_client b path file).

Lemma keeps_download_block bucket obj : keeps (download_block bucket obj).
Proof.
  unfold download_block.
  apply keeps_bind; [apply keeps_open_wb | intros _].
  apply keeps_bind; [apply R_download | intros res; apply keeps_write].
Qed.

Lemma keeps_upload_block bucket obj : keeps (upload_block bucket obj).
Proof.
  unfold upload_block.
  apply keeps_bind; [apply keeps_open_rb | intros _].
  apply keeps_bind; [apply R_upload | intros _].
  apply keeps_bind; [apply keeps_exists|].
  intros [|]; [apply keeps_remove | apply keeps_ret].
Qed.

Lemma keeps_object_body bucket obj : keeps (object_body bucket obj).
Proof.
  unfold object_body, download_try, upload_try.
  apply keeps_bind; [apply keeps_print | intros _].
  apply keeps_bind; [|intros _].
  - apply keeps_try; [apply keeps_download_block|].
    intros e. apply keeps_print.
  - apply keeps_try; [apply keeps_upload_block|].
    intros e. apply keeps_print.
Qed.

Lemma keeps_bucket_body bucket : keeps (bucket_body bucket).
Proof.
  unfold bucket_body, create_try.
  apply keeps_bind; [apply keeps_print | intros _].
  apply keeps_bind; [apply R_list_objects | intros objects].
  apply keeps_bind; [|intros _].
  - apply keeps_try; [apply R_create_bucket | intros e; apply keeps_print].
  - apply keeps_for_each. intros obj. apply keeps_object_body.
Qed.

Lemma keeps_migrate : keeps migrate.
Proof.
  unfold migrate.
  apply keeps_bind; [apply R_list_buckets | intros buckets].
  apply keeps_for_each. intros b. apply keeps_bucket_body.
Qed.
End Keeps.

(** ** The source project is only read *)

Lemma source_frame_refl w : source_frame w w.
Proof. split; [reflexivity|]. exists []. rewrite app_nil_r. auto. Qed.

Lemma source_frame_trans w1 w2 w3 :
  source_frame w1 w2 -> source_frame w2 w3 -> source_frame w1 w3.
Proof.
  intros [Hp (tr & Hc & Hf)] [Hp' (tr' & Hc' & Hf')]. split; [congruence|].
  exists (tr ++ tr'). rewrite Hc', Hc, <- app_assoc. split; [reflexivity|].
  rewrite forallb_app, Hf, Hf'. reflexivity.
Qed.

Lemma source_frame_same w w' :
  old_project w' = old_project w -> calls w' = calls w -> source_frame w w'.
Proof.
  intros Hp Hc. split; [exact Hp|]. exists []. rewrite app_nil_r. auto.
Qed.

Lemma source_frame_stdout out w : source_frame w (with_stdout out w).
Proof. apply source_frame_same; reflexivity. Qed.

Lemma source_frame_pending fs w : source_frame w (with_pending fs w).
Proof. apply source_frame_same; reflexivity. Qed.

Lemma source_frame_files fs w : source_frame w (with_files fs w).
Proof. apply source_frame_same; reflexivity. Qed.

(** Closes the side conditions of the [keeps] lemmas at [source_frame]. *)
Ltac frame_side :=
  first [ exact source_frame_refl | exact source_frame_trans
        | exact source_frame_stdout | exact source_frame_pending
        | exact source_frame_files ].

Ltac frame_ret := first [ apply keeps_ret | apply keeps_raise ]; frame_side.

Lemma source_frame_record e :
  spares_source e = true -> keeps source_frame (record e).
Proof.
  intros He w. split; [reflexivity|]. exists [e]. simpl. rewrite He. auto.
Qed.

Lemma source_frame_served_new {A} (serve : project -> string + A * project) :
  keeps source_frame (served new_supabase_client serve).
Proof.
  intros w. unfold served.
  destruct (serve _) as [msg|[a p]]; simpl; apply source_frame_same; auto.
Qed.

Lemma source_frame_served_old {A} (serve : project -> string + A * project) :
  (forall p a p', serve p = inr (a, p') -> p' = p) ->
  keeps source_frame (served old_supabase_client serve).
Proof.
  intros Hs w. unfold served. simpl.
  destruct (serve (old_project w)) as [msg|[a p]] eqn:E; simpl.
  - apply source_frame_refl.
  - apply Hs in E. subst p. apply source_frame_same; auto.
Qed.

Lemma source_frame_read {A} r (serve : project -> string + A * project) :
  is_read r = true ->
  (forall p a p', serve p = inr (a, p') -> p' = p) ->
  keeps source_frame (storage_call old_supabase_client r serve).
Proof.
  intros Hr Hs. apply keeps_storage_call; try frame_side.
  - apply source_frame_record. exact Hr.
  - apply source_frame_served_old. exact Hs.
Qed.

Lemma source_frame_download b path :
  keeps source_frame (download old_supabase_client b path).
Proof.
  apply source_frame_read; [reflexivity|].
  unfold serve_download. intros p a p'.
  destruct (lookup_object p b path); congruence.
Qed.

Lemma source_frame_upload b path file :
  keeps source_frame (upload new_supabase_client b path file).
Proof.
  apply keeps_upload; try frame_side.
  - apply source_frame_record. reflexivity.
  - intros data. apply source_frame_served_new.
Qed.


Lemma source_frame_list_objects b :
  keeps source_frame (list_objects old_supabase_client b).
Proof.
  apply source_frame_read; [reflexivity|].
  unfold serve_list. intros p a p'. destruct (find_bucket p b); congruence.
Qed.

Lemma source_frame_migrate : keeps source_frame migrate.
Proof.
  apply keeps_migrate; try frame_side.
  - apply source_frame_read; [reflexivity|].
    unfold serve_list_buckets. congruence.
  - apply source_frame_list_objects.
  - apply source_frame_download.
  - intros b pub. apply keeps_storage_call; try frame_side.
    + apply source_frame_record. reflexivity.
    + apply source_frame_served_new.
  - apply source_frame_upload.
Qed.

(** Lines 3-25 make no storage request at all. *)
Lemma source_frame_create_client url key :
  keeps source_frame (create_client url key).
Proof.
  unfold create_client. apply keeps_bind; try frame_side.
  - apply source_frame_record. reflexivity.
  - intros _. apply keeps_bind; try frame_side.
    + apply keeps_next_fault; frame_side.
    + intros [f|]; frame_ret.
Qed.

Lemma source_frame_lookup_name x p : keeps source_frame (lookup_name x p).
Proof.
  intros w. unfold lookup_name.
  destruct (globals p !! x); [apply source_frame_refl|].
  destruct (existsb _ _); apply source_frame_refl.
Qed.

Lemma source_frame_eval_atom a p : keeps source_frame (eval_atom a p).
Proof.
  destruct a; simpl; [frame_ret | apply source_frame_lookup_name].
Qed.

Lemma source_frame_eval_atoms l p : keeps source_frame (eval_atoms l p).
Proof.
  induction l as [|a l IH]; simpl; [frame_ret|].
  apply keeps_bind; try frame_side; [apply source_frame_eval_atom|].
  intros v. apply keeps_bind; try frame_side; [exact IH|].
  intros vs. frame_ret.
Qed.

Lemma source_frame_eval_callee f p : keeps source_frame (eval_callee f p).
Proof.
  destruct f as [x|x attr]; simpl; [apply source_frame_lookup_name|].
  apply keeps_bind; try frame_side; [apply source_frame_lookup_name|].
  intros v w. destruct v; try apply source_frame_refl.
  destruct (module_names m); [|apply source_frame_refl].
  destruct (existsb _ _); apply source_frame_refl.
Qed.

Lemma source_frame_call fv vs p : keeps source_frame (call fv vs p).
Proof.
  unfold call.
  destruct (is_function "dotenv" "load_dotenv" fv).
  { intros w. destruct vs; apply source_frame_refl. }
  destruct (is_function "os" "getenv" fv).
  { intros w. destruct vs as [|[] [|]]; apply source_frame_refl. }
  destruct (is_function "supabase" "create_client" fv);
    [|intros w; apply source_frame_refl].
  destruct vs as [|url [|key [|]]]; try (intros w; apply source_frame_refl).
  apply keeps_bind; try frame_side; [apply source_frame_create_client|].
  intros c. frame_ret.
Qed.

Lemma source_frame_eval e p : keeps source_frame (eval e p).
Proof.
  destruct e as [a|f args]; simpl.
  - apply keeps_bind; try frame_side; [apply source_frame_eval_atom|].
    intros v. frame_ret.
  - apply keeps_bind; try frame_side; [apply source_frame_eval_callee|].
    intros fv. apply keeps_bind; try frame_side;
      [apply source_frame_eval_atoms|].
    intros vs. apply source_frame_call.
Qed.

Lemma source_frame_exec_stmt s p : keeps source_frame (exec_stmt s p).
Proof.
  destruct s; simpl.
  - intros w. destruct (module_names m); [|apply source_frame_refl].
    destruct (existsb _ _); apply source_frame_refl.
  - intros w. destruct (module_names m); apply source_frame_refl.
  - apply keeps_bind; try frame_side; [apply source_frame_eval|].
    intros r. frame_ret.
  - apply keeps_bind; try frame_side; [apply source_frame_eval|].
    intros r. frame_ret.
Qed.

Lemma source_frame_exec ss p : keeps source_frame (exec ss p).
Proof.
  revert p. induction ss as [|s ss IH]; intros p; simpl; [frame_ret|].
  apply keeps_bind; try frame_side; [apply source_frame_exec_stmt|].
  intros p1. apply IH.
Qed.

(** C10. Over a whole run, of the loop alone or of the file from any
    starting process, the source project ends as it started, and every call
    made through [old_supabase_client] is a [list_buckets], a [list] or a
    [download]. *)
Theorem source_project_only_read (p : process) (w : world) :
  source_frame w (snd (migrate w)) /\ source_frame w (snd (script p w)).
Proof.
  split; [apply source_frame_migrate|].
  unfold script. apply keeps_bind; try frame_side.
  - apply source_frame_exec.
  - intros _. apply source_frame_migrate.
Qed.

(** ** Lines 3-25 in closed form *)

Lemma has_getenv_os v : has_getenv v = true -> v = VModule "os".
Proof.
  destruct v; simpl; try discriminate.
  unfold module_names.
  destruct (String.eqb_spec m "dotenv"); [discriminate|].
  destruct (String.eqb_spec m "supabase"); [discriminate|].
  destruct (String.eqb_spec m "os"); [congruence|discriminate].
Qed.

Lemma exec_cons s ss p w :
  exec (s :: ss) p w =
  match exec_stmt s p w with
  | (Ok p1, w1) => exec ss p1 w1
  | (Err e, w1) => (Err e, w1)
  end.
Proof. reflexivity. Qed.

Lemma globals_bind_eq x v p : globals (bind_global x v p) !! x = Some v.
Proof. apply lookup_insert_eq. Qed.

Lemma globals_bind_ne x y v p :
  x ≠ y -> globals (bind_global x v p) !! y = globals p !! y.
Proof. intros H. apply lookup_insert_ne. exact H. Qed.

Lemma exec_assign_literal x s p w :
  exec_stmt (SAssign x (EAtom (Lit s))) p w = (Ok (bind_global x (VStr s) p), w).
Proof. reflexivity. Qed.

Lemma exec_load_dotenv f p w :
  globals p !! f = Some (VFunction "dotenv" "load_dotenv") ->
  exec_stmt (SExpr (ECall (CName f) [])) p w = (Ok (load_dotenv p), w).
Proof.
  intros H. simpl. unfold lookup_name. rewrite H. reflexivity.
Qed.

Lemma exec_getenv x k p w :
  exec_stmt (SAssign x (ECall (CAttr "os" "getenv") [Lit k])) p w =
  match globals p !! "os" with
  | None => (Err (NameError "os"), w)
  | Some v =>
      if has_getenv v then (Ok (bind_global x (getenv k p) p), w)
      else (Err (AttributeError "getenv"), w)
  end.
Proof.
  simpl. unfold lookup_name. rewrite !bind_run.
  destruct (globals p !! "os") as [v|]; [|reflexivity].
  destruct (has_getenv v) eqn:Hv.
  - apply has_getenv_os in Hv. subst v. reflexivity.
  - destruct v; try reflexivity. simpl in *.
    destruct (module_names m); [|reflexivity]. simpl. rewrite Hv. reflexivity.
Qed.

Lemma exec_create_client x a b va vb p w :
  globals p !! "create_client" = Some (VFunction "supabase" "create_client") ->
  globals p !! a = Some va -> globals p !! b = Some vb ->
  exec_stmt (SAssign x (ECall (CName "create_client") [Name a; Name b])) p w =
  (c ← create_client va vb; mret (bind_global x c p)) w.
Proof.
  intros Hf Ha Hb. simpl. unfold lookup_name. rewrite Hf, Ha, Hb.
  unfold mbind, M_bind, mret, M_ret. simpl.
  change (call (VFunction "supabase" "create_client") [va; vb] p w)
    with ((c ← create_client va vb; mret (c, p)) w).
  rewrite bind_run.
  destruct (create_client va vb w) as [[c|e] w1]; reflexivity.
Qed.

Ltac names_differ := intro; discriminate.

Ltac find_global :=
  repeat first
    [ rewrite globals_bind_eq
    | rewrite globals_bind_ne by names_differ ];
  try reflexivity.

Lemma exec_import_from m x xs p w :
  module_names m = Some xs -> existsb (String.eqb x) xs = true ->
  exec_stmt (SImportFrom m x) p w = (Ok (bind_global x (VFunction m x) p), w).
Proof. intros Hm Hx. simpl. rewrite Hm, Hx. reflexivity. Qed.

Lemma exec_import m xs p w :
  module_names m = Some xs ->
  exec_stmt (SImport m) p w = (Ok (bind_global m (VModule m) p), w).
Proof. intros Hm. simpl. rewrite Hm. reflexivity. Qed.

Lemma globals_load_dotenv p : globals (load_dotenv p) = globals p.
Proof. reflexivity. Qed.

Lemma prelude_closed_form p w :
  (exec prelude p;; mret tt) w = prelude_effect (globals p) w.
Proof.
  unfold prelude_effect, prelude. rewrite bind_run.
  rewrite exec_cons.
  erewrite exec_import_from by reflexivity. cbv beta iota.
  rewrite exec_cons, exec_load_dotenv by find_global. cbv beta iota.
  rewrite exec_cons, exec_getenv.
  rewrite globals_load_dotenv, globals_bind_ne by names_differ.
  destruct (globals p !! "os") as [v|] eqn:Hos; [|reflexivity].
  destruct (has_getenv v) eqn:Hv; [|reflexivity]. cbv beta iota.
  do 3 (rewrite exec_cons, exec_getenv;
        repeat first [ rewrite globals_bind_ne by names_differ
                     | rewrite globals_load_dotenv ];
        rewrite Hos, Hv; cbv beta iota).
  do 4 (rewrite exec_cons, exec_assign_literal; cbv beta iota).
  rewrite exec_cons. erewrite exec_import_from by reflexivity. cbv beta iota.
  rewrite exec_cons. erewrite exec_import by reflexivity. cbv beta iota.
  rewrite exec_cons, exec_assign_literal. cbv beta iota.
  rewrite exec_cons, (exec_create_client _ _ _ (VStr OLD_DB_URL) (VStr OLD_SERVICE_KEY)) by find_global.
  rewrite !bind_run.
  destruct (create_client (VStr OLD_DB_URL) (VStr OLD_SERVICE_KEY) w) as [[c1|e1] w1]; [|reflexivity].
  cbv beta iota.
  unfold mret at 1, M_ret at 1. cbv beta iota.
  rewrite exec_cons, (exec_create_client _ _ _ (VStr NEW_DB_URL) (VStr NEW_SERVICE_KEY)) by find_global.
  rewrite !bind_run.
  destruct (create_client (VStr NEW_DB_URL) (VStr NEW_SERVICE_KEY) w1) as [[c2|e2] w2]; reflexivity.
Qed.

Lemma script_closed_form p w :
  script p w = (prelude_effect (globals p);; migrate) w.
Proof.
  unfold script. rewrite !bind_run, <- prelude_closed_form, bind_run.
  destruct (exec prelude p w) as [[p'|e] w']; reflexivity.
Qed.

Lemma prelude_world p w :
  snd (exec prelude p w) = snd (prelude_effect (globals p) w).
Proof.
  rewrite <- prelude_closed_form, bind_run.
  destruct (exec prelude p w) as [[p'|e] w']; reflexivity.
Qed.

Lemma create_client_calls url key w :
  calls (snd (create_client url key w)) = calls w ++ [CreateClient url key].
Proof.
  unfold create_client, mbind, M_bind, record, next_fault. simpl.
  destruct (pending w) as [|[f|] rest]; reflexivity.
Qed.

Lemma create_client_raises url key w e w1 :
  create_client url key w = (Err e, w1) ->
  calls w1 = calls w ++ [CreateClient url key].
Proof.
  intros H. rewrite <- (create_client_calls url key w), H. reflexivity.
Qed.

Lemma prelude_effect_calls g w :
  exists n,
    calls (snd (prelude_effect g w)) = calls w ++ take n client_constructions.
Proof.
  unfold prelude_effect.
  destruct (g !! "os") as [v|]; [|exists 0; simpl; symmetry; apply app_nil_r].
  destruct (has_getenv v);
    [|exists 0; simpl; symmetry; apply app_nil_r].
  rewrite bind_run.
  destruct (create_client (VStr OLD_DB_URL) (VStr OLD_SERVICE_KEY) w)
    as [[c1|e1] w1] eqn:E1.
  - rewrite bind_run.
    pose proof (create_client_calls (VStr OLD_DB_URL) (VStr OLD_SERVICE_KEY) w)
      as H1. rewrite E1 in H1. simpl in H1.
    pose proof (create_client_calls (VStr NEW_DB_URL) (VStr NEW_SERVICE_KEY) w1)
      as H2.
    destruct (create_client (VStr NEW_DB_URL) (VStr NEW_SERVICE_KEY) w1)
      as [[c2|e2] w2]; simpl in *; exists 2; rewrite H2, H1, <- app_assoc;
      reflexivity.
  - exists 1. simpl. apply create_client_raises in E1. exact E1.
Qed.

(** ** Starting the file *)

(** C4. Started as a program, the file stops at line 6 with the NameError
    of [os], whatever the environment, the [.env] file and the world: the
    world is left as it was, so no client was constructed and no request
    was made. *)
Theorem main_raises_NameError (env dotenv : gmap string string) (w : world) :
  main env dotenv w = (Err (NameError "os"), w).
Proof. reflexivity. Qed.

(** C3. The clients are constructed from the four literals of lines 13-16
    and from nothing else.  Whatever globals [g] the file is started with:
    two runs that differ only in the environment and in the [.env] file
    end with the same result in the same world; the calls made by lines
    3-25 are an initial part of [client_constructions]; and when [os] is
    already bound to the module and neither construction fails, they are
    exactly [client_constructions]. *)
Theorem clients_built_from_literals
    (g : gmap string value) (env1 env2 dotenv1 dotenv2 : gmap string string)
    (fs : list (option fault)) (w : world) :
  script {| globals := g; environ := env1; dotenv_file := dotenv1 |} w
  = script {| globals := g; environ := env2; dotenv_file := dotenv2 |} w
  /\ (exists n,
        calls (snd (exec prelude
                      {| globals := g; environ := env1;
                         dotenv_file := dotenv1 |} w))
        = calls w ++ take n client_constructions)
  /\ calls (snd (exec prelude
                   {| globals := <["os" := VModule "os"]> g;
                      environ := env1; dotenv_file := dotenv1 |}
                   (with_pending (None :: None :: fs) w)))
     = calls w ++ client_constructions.
Proof.
  split; [|split].
  - rewrite !script_closed_form. reflexivity.
  - rewrite prelude_world. apply prelude_effect_calls.
  - rewrite prelude_world. unfold prelude_effect. cbn [globals].
    rewrite lookup_insert_eq. simpl. rewrite <- app_assoc. reflexivity.
Qed.

(** ** One request *)

Lemma next_fault_run w : next_fault w = (Ok (fst (faulted w)), snd (faulted w)).
Proof. unfold next_fault, faulted. destruct (pending w); reflexivity. Qed.

Lemma storage_call_run {A} c r (serve : project -> string + A * project) w :
  storage_call c r serve w =
  match faulted (recorded (Storage c r) w) with
  | (Some f, w1) => (Err (StorageError (fmsg f)), w1)
  | (None, w1) => served c serve w1
  end.
Proof.
  unfold storage_call. rewrite bind_run. unfold record at 1.
  cbv beta iota. rewrite bind_run, next_fault_run.
  destruct (faulted (recorded (Storage c r) w)) as [[f|] w1]; reflexivity.
Qed.

(** What taking a fault leaves alone. *)
Lemma faulted_frame w :
  old_project (snd (faulted w)) = old_project w /\
  new_project (snd (faulted w)) = new_project w /\
  files (snd (faulted w)) = files w /\
  stdout (snd (faulted w)) = stdout w /\
  calls (snd (faulted w)) = calls w.
Proof. unfold faulted. destruct (pending w); simpl; auto. Qed.

(** ** Objects in a project *)

Lemma find_object_app_other k path o :
  oname o <> path ->
  find (fun o => String.eqb (oname o) path) (bobjects k ++ [o])
  = find_object k path.
Proof.
  intros Hne. unfold find_object.
  induction (bobjects k) as [|x xs IH]; simpl.
  - apply String.eqb_neq in Hne. rewrite Hne. reflexivity.
  - destruct (String.eqb (oname x) path); auto.
Qed.

Lemma find_object_app_new k path data :
  find_object k path = None ->
  find (fun o => String.eqb (oname o) path)
       (bobjects k ++ [{| oname := path; ocontent := data |}])
  = Some {| oname := path; ocontent := data |}.
Proof.
  unfold find_object.
  induction (bobjects k) as [|x xs IH]; simpl.
  - intros _. rewrite String.eqb_refl. reflexivity.
  - destruct (String.eqb (oname x) path); [discriminate | auto].
Qed.

(** A stored object has the content it was put with. *)
Lemma put_object_lookup b path data p p' :
  put_object b path data p = inr p' ->
  lookup_object p' b path = Some data.
Proof.
  revert p'. induction p as [|k rest IH]; intros p'; simpl; [discriminate|].
  unfold lookup_object, find_bucket. simpl.
  destruct (String.eqb (bname k) b) eqn:Hk.
  - destruct (find_object k path) eqn:Ho; [discriminate|].
    intros [= <-]. simpl. rewrite Hk. unfold find_object. simpl.
    rewrite (find_object_app_new k path data Ho). reflexivity.
  - destruct (put_object b path data rest) as [msg|rest'] eqn:Hp;
      [discriminate|].
    intros [= <-]. simpl. rewrite Hk. apply (IH rest' eq_refl).
Qed.

(** Before it is stored the object is not there, and the bucket is. *)
Lemma put_object_fresh b path data p p' :
  put_object b path data p = inr p' ->
  lookup_object p b path = None /\ is_Some (find_bucket p b).
Proof.
  revert p'. induction p as [|k rest IH]; intros p'; simpl; [discriminate|].
  unfold lookup_object, find_bucket. simpl.
  destruct (String.eqb (bname k) b) eqn:Hk.
  - destruct (find_object k path) eqn:Ho; [discriminate|].
    intros _. split; [reflexivity | eauto].
  - destruct (put_object b path data rest) as [msg|rest'] eqn:Hp;
      [discriminate|].
    intros _. apply (IH rest' eq_refl).
Qed.

(** Storing an object leaves every object already there as it is. *)
Lemma put_object_keeps b path data p p' b0 path0 data0 :
  put_object b path data p = inr p' ->
  lookup_object p b0 path0 = Some data0 ->
  lookup_object p' b0 path0 = Some data0.
Proof.
  revert p'. induction p as [|k rest IH]; intros p'; simpl; [discriminate|].
  unfold lookup_object, find_bucket. simpl.
  destruct (String.eqb (bname k) b) eqn:Hk.
  - destruct (find_object k path) eqn:Ho; [discriminate|].
    intros [= <-]. simpl.
    destruct (String.eqb (bname k) b0) eqn:Hk0; [|auto].
    unfold find_object at 2. simpl.
    destruct (String.eqb_spec path path0) as [->|Hne].
    + unfold find_object in Ho |- *. rewrite Ho. discriminate.
    + rewrite find_object_app_other by (simpl; exact Hne). auto.
  - destruct (put_object b path data rest) as [msg|rest'] eqn:Hp;
      [discriminate|].
    intros [= <-]. simpl.
    destruct (String.eqb (bname k) b0) eqn:Hk0; [auto|].
    apply (IH rest' eq_refl).
Qed.

(** ** The calls of one object's cycle *)

Lemma open_wb_run path w :
  open_wb path w =
  match faulted w with
  | (Some f, w1) => (Err (OSError (fmsg f)), w1)
  | (None, w1) => (Ok tt, with_files (<[path := []]> (files w1)) w1)
  end.
Proof.
  unfold open_wb. rewrite bind_run, next_fault_run.
  destruct (faulted w) as [[f|] w1]; reflexivity.
Qed.

Lemma write_run path data w :
  write path data w =
  match faulted w with
  | (Some f, w1) =>
      (Err (OSError (fmsg f)),
       with_files (<[path := take (fpartial f) data]> (files w1)) w1)
  | (None, w1) => (Ok tt, with_files (<[path := data]> (files w1)) w1)
  end.
Proof.
  unfold write. rewrite bind_run, next_fault_run.
  destruct (faulted w) as [[f|] w1]; reflexivity.
Qed.

Lemma download_run c b path w :
  download c b path w =
  match faulted (recorded (Storage c (Download b path)) w) with
  | (Some f, w1) => (Err (StorageError (fmsg f)), w1)
  | (None, w1) =>
      match lookup_object (project_of c w1) b path with
      | Some data => (Ok data, with_project c (project_of c w1) w1)
      | None => (Err (StorageError "Object not found"), w1)
      end
  end.
Proof.
  unfold download. rewrite storage_call_run.
  destruct (faulted _) as [[f|] w1]; [reflexivity|].
  unfold served, serve_download.
  destruct (lookup_object (project_of c w1) b path); reflexivity.
Qed.

Lemma upload_run c b path file w :
  upload c b path file w =
  match files w !! file with
  | None =>
      (Err (FileNotFoundError file), recorded (Storage c (Upload b path file)) w)
  | Some data =>
      match faulted (recorded (Storage c (Upload b path file)) w) with
      | (Some f, w1) => (Err (StorageError (fmsg f)), w1)
      | (None, w1) =>
          match put_object b path data (project_of c w1) with
          | inl msg => (Err (StorageError msg), w1)
          | inr p' => (Ok tt, with_project c p' w1)
          end
      end
  end.
Proof.
  unfold upload. destruct (files w !! file) as [data|]; [|reflexivity].
  rewrite storage_call_run.
  destruct (faulted _) as [[f|] w1]; [reflexivity|].
  unfold served, serve_upload.
  destruct (put_object b path data (project_of c w1)); reflexivity.
Qed.

Lemma with_project_same c w : with_project c (project_of c w) w = w.
Proof. destruct c, w; reflexivity. Qed.

(** What a download tells and leaves. *)
Lemma download_ok b path w data w1 :
  download old_supabase_client b path w = (Ok data, w1) ->
  lookup_object (old_project w) b path = Some data /\
  files w1 = files w /\ new_project w1 = new_project w /\
  old_project w1 = old_project w /\ stdout w1 = stdout w /\
  calls w1 = calls w ++ [Storage old_supabase_client (Download b path)].
Proof.
  rewrite download_run.
  pose proof (faulted_frame
    (recorded (Storage old_supabase_client (Download b path)) w)) as F.
  destruct (faulted _) as [[f|] w0]; [discriminate|]. simpl in F.
  destruct F as (Fo & Fn & Ff & Fs & Fc).
  destruct (lookup_object _ _ _) as [d|] eqn:L; [|discriminate].
  rewrite with_project_same. intros [= <- <-]. simpl in L.
  rewrite Fo in L. repeat split; assumption.
Qed.

Lemma download_err b path w e w1 :
  download old_supabase_client b path w = (Err e, w1) ->
  files w1 = files w /\ new_project w1 = new_project w /\
  old_project w1 = old_project w /\ stdout w1 = stdout w /\
  calls w1 = calls w ++ [Storage old_supabase_client (Download b path)].
Proof.
  rewrite download_run.
  pose proof (faulted_frame
    (recorded (Storage old_supabase_client (Download b path)) w)) as F.
  destruct (faulted _) as [[f|] w0]; simpl in F;
    destruct F as (Fo & Fn & Ff & Fs & Fc).
  - intros [= <- <-]. repeat split; assumption.
  - destruct (lookup_object _ _ _); [discriminate|]. intros [= <- <-].
    repeat split; assumption.
Qed.

(** What an upload through the destination client does and leaves. *)
Lemma upload_ok b path file w w1 :
  upload new_supabase_client b path file w = (Ok tt, w1) ->
  exists data,
    files w !! file = Some data /\
    lookup_object (new_project w1) b path = Some data /\
    lookup_object (new_project w) b path = None /\
    is_Some (find_bucket (new_project w) b) /\
    files w1 = files w /\ old_project w1 = old_project w /\
    stdout w1 = stdout w /\
    calls w1 = calls w ++ [Storage new_supabase_client (Upload b path file)].
Proof.
  rewrite upload_run. destruct (files w !! file) as [data|]; [|discriminate].
  pose proof (faulted_frame
    (recorded (Storage new_supabase_client (Upload b path file)) w)) as F.
  destruct (faulted _) as [[f|] w0]; [discriminate|]. simpl in F.
  destruct F as (Fo & Fn & Ff & Fs & Fc). simpl.
  destruct (put_object b path data (new_project w0)) as [msg|p'] eqn:P;
    [discriminate|].
  intros [= <-]. exists data. simpl. rewrite Fn in P.
  destruct (put_object_fresh _ _ _ _ _ P) as [Hnone Hbucket].
  split; [reflexivity|]. split; [eapply put_object_lookup; eauto|].
  repeat split; assumption.
Qed.

Lemma upload_err b path file w e w1 :
  upload new_supabase_client b path file w = (Err e, w1) ->
  files w1 = files w /\ new_project w1 = new_project w /\
  old_project w1 = old_project w /\ stdout w1 = stdout w /\
  calls w1 = calls w ++ [Storage new_supabase_client (Upload b path file)].
Proof.
  rewrite upload_run. destruct (files w !! file) as [data|].
  - pose proof (faulted_frame
      (recorded (Storage new_supabase_client (Upload b path file)) w)) as F.
    destruct (faulted _) as [[f|] w0]; simpl in F;
      destruct F as (Fo & Fn & Ff & Fs & Fc).
    + intros [= <- <-]. repeat split; assumption.
    + simpl. destruct (put_object _ _ _ _); [|discriminate].
      intros [= <- <-]. repeat split; assumption.
  - intros [= <- <-]. repeat split; reflexivity.
Qed.

(** ** The two blocks *)

Lemma download_block_run bucket obj w :
  download_block bucket obj w =
  match open_wb (obj_name obj) w with
  | (Err e, w1) => (Err e, w1)
  | (Ok _, w1) =>
      match download old_supabase_client (name bucket) (obj_name obj) w1 with
      | (Err e, w2) => (Err e, w2)
      | (Ok res, w2) => write (obj_name obj) res w2
      end
  end.
Proof.
  unfold download_block. rewrite bind_run.
  destruct (open_wb (obj_name obj) w) as [[[]|e] w1]; reflexivity.
Qed.

(** The second block in closed form: without the local file nothing is
    sent; with it, the file is removed exactly when the upload returns. *)
Lemma upload_block_run bucket obj w :
  upload_block bucket obj w =
  match files w !! obj_name obj with
  | None => (Err (FileNotFoundError (obj_name obj)), w)
  | Some _ =>
      match upload new_supabase_client (name bucket) (obj_name obj)
              (obj_name obj) w with
      | (Ok _, w1) =>
          (Ok tt, with_files (delete (obj_name obj) (files w1)) w1)
      | (Err e, w1) => (Err e, w1)
      end
  end.
Proof.
  unfold upload_block. rewrite bind_run. unfold open_rb.
  destruct (files w !! obj_name obj) as [data|] eqn:Hf; [|reflexivity].
  rewrite bind_run.
  destruct (upload _ _ _ _ w) as [[[]|e] w1] eqn:U; [|reflexivity].
  apply upload_ok in U. destruct U as (d & _ & _ & _ & _ & Hfiles & _).
  rewrite bind_run. unfold exists_, abspath, remove.
  rewrite Hfiles, Hf. rewrite bool_decide_eq_true_2 by eauto.
  rewrite Hfiles, Hf. reflexivity.
Qed.

Lemma upload_try_run bucket obj w :
  upload_try bucket obj w =
  match upload_block bucket obj w with
  | (Ok _, w1) => (Ok tt, w1)
  | (Err e, w1) => (Ok tt, logged ("error uploading | " +:+ str e) w1)
  end.
Proof.
  unfold upload_try, try_except.
  destruct (upload_block bucket obj w) as [[[]|e] w1]; reflexivity.
Qed.

Lemma download_try_run bucket obj w :
  download_try bucket obj w =
  match download_block bucket obj w with
  | (Ok _, w1) => (Ok tt, w1)
  | (Err e, w1) => (Ok tt, logged ("error downloading " +:+ str e) w1)
  end.
Proof.
  unfold download_try, try_except.
  destruct (download_block bucket obj w) as [[[]|e] w1]; reflexivity.
Qed.

Lemma object_body_run bucket obj w :
  object_body bucket obj w =
  upload_try bucket obj
    (snd (download_try bucket obj (logged (obj_name obj) w))).
Proof.
  unfold object_body. rewrite bind_run. unfold print at 1. cbv beta iota.
  rewrite bind_run, download_try_run.
  destruct (download_block _ _ _) as [[[]|e] w1]; reflexivity.
Qed.

(** Neither [try] statement lets an exception out, and so the body of the
    object loop always returns. *)
Lemma object_body_returns bucket obj w : fst (object_body bucket obj w) = Ok tt.
Proof.
  rewrite object_body_run, upload_try_run.
  destruct (upload_block _ _ _) as [[[]|e] w1]; reflexivity.
Qed.

Lemma for_each_objects_returns bucket objects w :
  fst (for_each objects (object_body bucket) w) = Ok tt.
Proof.
  revert w. induction objects as [|o rest IH]; intros w; simpl; [reflexivity|].
  rewrite bind_run. pose proof (object_body_returns bucket o w) as H.
  destruct (object_body bucket o w) as [[[]|e] w1]; simpl in H;
    [apply IH | discriminate].
Qed.

(** What the first block leaves when it completes: the local file holds the
    bytes that the source has for the object. *)
Lemma download_block_ok bucket obj w w1 :
  download_block bucket obj w = (Ok tt, w1) ->
  exists data,
    lookup_object (old_project w) (name bucket) (obj_name obj) = Some data /\
    files w1 !! obj_name obj = Some data /\
    new_project w1 = new_project w /\ old_project w1 = old_project w.
Proof.
  rewrite download_block_run, open_wb_run.
  pose proof (faulted_frame w) as F.
  destruct (faulted w) as [[f|] wa]; [discriminate|]. simpl in F.
  destruct F as (Fo & Fn & Ff & Fs & Fc).
  destruct (download _ _ _ _) as [[res|e] wb] eqn:D; [|discriminate].
  apply download_ok in D. simpl in D. destruct D as (L & Df & Dn & Do & _).
  rewrite write_run. pose proof (faulted_frame wb) as G.
  destruct (faulted wb) as [[f|] wc]; [discriminate|]. simpl in G.
  destruct G as (Go & Gn & Gf & Gs & Gc).
  intros [= <-]. exists res. simpl. rewrite lookup_insert_eq.
  rewrite <- Fo. repeat split; congruence.
Qed.

(** A cycle whose two blocks complete: where it ends, what the destination
    then has, and that the local file is gone. *)
Lemma completed_cycle bucket obj w w1 w2 :
  download_block bucket obj (logged (obj_name obj) w) = (Ok tt, w1) ->
  upload_block bucket obj w1 = (Ok tt, w2) ->
  object_body bucket obj w = (Ok tt, w2) /\
  exists data,
    lookup_object (old_project w) (name bucket) (obj_name obj) = Some data /\
    lookup_object (new_project w2) (name bucket) (obj_name obj) = Some data /\
    files w2 !! obj_name obj = None.
Proof.
  intros D U. split.
  - rewrite object_body_run, download_try_run, D. simpl.
    rewrite upload_try_run, U. reflexivity.
  - apply download_block_ok in D. destruct D as (data & L & Hf & _ & _).
    exists data. split; [exact L|].
    rewrite upload_block_run, Hf in U.
    destruct (upload _ _ _ _ w1) as [[[]|e] w1'] eqn:S; [|discriminate].
    injection U as <-. apply upload_ok in S.
    destruct S as (d & Hd & Ld & _). simpl. split; [congruence|].
    apply lookup_delete_eq.
Qed.

(** ** Properties of one object's cycle *)

(** C2. When the second [try] statement starts with the local file in
    place, the upload is attempted with it; the file is gone afterwards if
    that call returns, and is still there with its content if that call
    raises.  When no local file is in place nothing is sent and there is
    nothing to delete.  The second [try] statement is what ends the cycle of
    the object. *)
Theorem file_deleted_iff_upload_returns
    (bucket : Bucket) (obj : Obj) (w0 : world) :
  let w := snd (download_try bucket obj (logged (obj_name obj) w0)) in
  let sent :=
    upload new_supabase_client (name bucket) (obj_name obj) (obj_name obj) w in
  object_body bucket obj w0 = upload_try bucket obj w /\
  match files w !! obj_name obj with
  | Some data =>
      match fst sent with
      | Ok _ =>
          snd (upload_try bucket obj w)
          = with_files (delete (obj_name obj) (files (snd sent))) (snd sent)
          /\ files (snd (upload_try bucket obj w)) !! obj_name obj = None
      | Err e =>
          snd (upload_try bucket obj w)
          = logged ("error uploading | " +:+ str e) (snd sent)
          /\ files (snd (upload_try bucket obj w)) !! obj_name obj = Some data
      end
  | None =>
      snd (upload_try bucket obj w)
      = logged ("error uploading | "
                +:+ str (FileNotFoundError (obj_name obj))) w
  end.
Proof.
  intros w sent. split; [apply object_body_run|].
  rewrite upload_try_run, upload_block_run.
  destruct (files w !! obj_name obj) as [data|] eqn:Hf; [|reflexivity].
  subst sent.
  destruct (upload _ _ _ _ w) as [[[]|e] w1] eqn:U; simpl.
  - split; [reflexivity|]. apply lookup_delete_eq.
  - split; [reflexivity|]. apply upload_err in U.
    destruct U as (Uf & _). rewrite Uf. exact Hf.
Qed.

(** C5. When both blocks of an object's cycle complete, the cycle ends in
    the world the second block leaves; there the destination project has,
    in the bucket of the same name, an object of the same name whose bytes
    are those the source has for it, and no local file of that name is
    left. *)
Theorem transferred_object_copied
    (bucket : Bucket) (obj : Obj) (w w1 w2 : world) :
  download_block bucket obj (logged (obj_name obj) w) = (Ok tt, w1) ->
  upload_block bucket obj w1 = (Ok tt, w2) ->
  object_body bucket obj w = (Ok tt, w2) /\
  exists data,
    lookup_object (old_project w) (name bucket) (obj_name obj) = Some data /\
    lookup_object (new_project w2) (name bucket) (obj_name obj) = Some data /\
    files w2 !! obj_name obj = None.
Proof. apply completed_cycle. Qed.

(** C9. When the local file could be opened for writing and the download
    call then raises, the file is left empty, the failure is logged, and the
    second [try] statement still runs: the upload is attempted with the
    empty file, and if it returns the destination bucket has gained the
    object with no content and the local file is gone. *)
Theorem failed_download_uploads_empty_file
    (bucket : Bucket) (obj : Obj) (w w1 w2 : world) (e : exn) :
  open_wb (obj_name obj) (logged (obj_name obj) w) = (Ok tt, w1) ->
  download old_supabase_client (name bucket) (obj_name obj) w1 = (Err e, w2) ->
  let w3 := logged ("error downloading " +:+ str e) w2 in
  let sent :=
    upload new_supabase_client (name bucket) (obj_name obj) (obj_name obj) w3 in
  files w3 !! obj_name obj = Some [] /\
  object_body bucket obj w = upload_try bucket obj w3 /\
  calls (snd (object_body bucket obj w))
  = calls w3 ++ [Storage new_supabase_client
                   (Upload (name bucket) (obj_name obj) (obj_name obj))] /\
  match fst sent with
  | Ok _ =>
      lookup_object (new_project w3) (name bucket) (obj_name obj) = None /\
      lookup_object (new_project (snd (object_body bucket obj w)))
        (name bucket) (obj_name obj) = Some [] /\
      files (snd (object_body bucket obj w)) !! obj_name obj = None
  | Err _ =>
      new_project (snd (object_body bucket obj w)) = new_project w3 /\
      files (snd (object_body bucket obj w)) !! obj_name obj = Some []
  end.
Proof.
  intros O D w3 sent.
  assert (Hf : files w3 !! obj_name obj = Some []).
  { rewrite open_wb_run in O.
    destruct (faulted _) as [[f|] wa]; [discriminate|].
    injection O as <-. apply download_err in D. destruct D as (Df & _).
    subst w3. simpl. rewrite Df. simpl. apply lookup_insert_eq. }
  assert (Hb : object_body bucket obj w = upload_try bucket obj w3).
  { rewrite object_body_run, download_try_run, download_block_run, O, D.
    reflexivity. }
  split; [exact Hf|]. split; [exact Hb|].
  rewrite Hb, upload_try_run, upload_block_run, Hf. subst sent.
  destruct (upload _ _ _ _ w3) as [[[]|e'] w4] eqn:U; simpl.
  - apply upload_ok in U.
    destruct U as (d & Hd & Ld & Ln & _ & _ & _ & _ & Hc).
    rewrite Hf in Hd. injection Hd as <-.
    repeat split; [exact Hc | exact Ln | exact Ld | apply lookup_delete_eq].
  - apply upload_err in U. destruct U as (Uf & Un & _ & _ & Uc).
    rewrite Uf. repeat split; assumption.
Qed.


(** ** Properties of one bucket and of the loop *)

Lemma list_objects_run c b w :
  list_objects c b w =
  match faulted (recorded (Storage c (ListObjects b)) w) with
  | (Some f, w1) => (Err (StorageError (fmsg f)), w1)
  | (None, w1) =>
      match find_bucket (project_of c w1) b with
      | Some k => (Ok (map (fun o => {| obj_name := oname o |}) (bobjects k)), w1)
      | None => (Err (StorageError "Bucket not found"), w1)
      end
  end.
Proof.
  unfold list_objects. rewrite storage_call_run.
  destruct (faulted _) as [[f|] w1]; [reflexivity|].
  unfold served, serve_list.
  destruct (find_bucket (project_of c w1) b); [|reflexivity].
  rewrite with_project_same. reflexivity.
Qed.

Lemma list_objects_calls c b w :
  calls (snd (list_objects c b w)) = calls w ++ [Storage c (ListObjects b)].
Proof.
  rewrite list_objects_run.
  pose proof (faulted_frame (recorded (Storage c (ListObjects b)) w)) as F.
  destruct (faulted _) as [[f|] w1]; simpl in F;
    destruct F as (_ & _ & _ & _ & Fc); [exact Fc|].
  destruct (find_bucket _ _); exact Fc.
Qed.

Lemma create_bucket_run c b pub w :
  create_bucket c b pub w =
  match faulted (recorded (Storage c (CreateBucket b pub)) w) with
  | (Some f, w1) => (Err (StorageError (fmsg f)), w1)
  | (None, w1) =>
      match find_bucket (project_of c w1) b with
      | Some _ => (Err (StorageError "The resource already exists"), w1)
      | None =>
          (Ok tt,
           with_project c
             (project_of c w1
              ++ [{| bname := b; bpublic := pub; bobjects := [] |}]) w1)
      end
  end.
Proof.
  unfold create_bucket. rewrite storage_call_run.
  destruct (faulted _) as [[f|] w1]; [reflexivity|].
  unfold served, serve_create_bucket.
  destruct (find_bucket (project_of c w1) b); reflexivity.
Qed.

Lemma create_bucket_calls b pub w :
  calls (snd (create_bucket new_supabase_client b pub w))
  = calls w ++ [Storage new_supabase_client (CreateBucket b pub)].
Proof.
  rewrite create_bucket_run.
  pose proof (faulted_frame
    (recorded (Storage new_supabase_client (CreateBucket b pub)) w)) as F.
  destruct (faulted _) as [[f|] w1]; simpl in F;
    destruct F as (_ & _ & _ & _ & Fc); [exact Fc|].
  destruct (find_bucket _ _); exact Fc.
Qed.


Lemma create_try_returns bucket w : fst (create_try bucket w) = Ok tt.
Proof.
  unfold create_try, try_except.
  destruct (create_bucket _ _ _ w) as [[[]|e] w1]; reflexivity.
Qed.

Lemma create_try_calls bucket w :
  calls (snd (create_try bucket w))
  = calls w ++ [Storage new_supabase_client
                  (CreateBucket (name bucket) (public bucket))].
Proof.
  pose proof (create_bucket_calls (name bucket) (public bucket) w) as H.
  unfold create_try, try_except.
  destruct (create_bucket _ _ _ w) as [[[]|e] w1]; exact H.
Qed.

Lemma bucket_body_run bucket w :
  bucket_body bucket w =
  match list_objects old_supabase_client (name bucket)
          (logged ("Copying objects from " +:+ name bucket) w) with
  | (Err e, w1) => (Err e, w1)
  | (Ok objects, w1) =>
      for_each objects (object_body bucket) (snd (create_try bucket w1))
  end.
Proof.
  unfold bucket_body. rewrite bind_run. unfold print at 1. cbv beta iota.
  rewrite bind_run.
  destruct (list_objects _ _ _) as [[objects|e] w1]; [|reflexivity].
  rewrite bind_run.
  pose proof (create_try_returns bucket w1) as H.
  destruct (create_try bucket w1) as [[[]|e] w2]; [reflexivity|discriminate].
Qed.

(** *** The calls of the object loop are downloads and uploads *)

Lemma calls_extend_same ok w w' : calls w' = calls w -> calls_extend ok w w'.
Proof. intros H. exists []. rewrite app_nil_r. auto. Qed.

Lemma calls_extend_refl ok w : calls_extend ok w w.
Proof. apply calls_extend_same. reflexivity. Qed.

Lemma calls_extend_trans ok w1 w2 w3 :
  calls_extend ok w1 w2 -> calls_extend ok w2 w3 -> calls_extend ok w1 w3.
Proof.
  intros (tr & Hc & Hf) (tr' & Hc' & Hf'). exists (tr ++ tr').
  rewrite Hc', Hc, <- app_assoc. split; [reflexivity|].
  rewrite forallb_app, Hf, Hf'. reflexivity.
Qed.

Lemma calls_extend_one ok e w w' :
  ok e = true -> calls w' = calls w ++ [e] -> calls_extend ok w w'.
Proof. intros He Hc. exists [e]. simpl. rewrite He. auto. Qed.

Lemma transfers_object_body bucket obj :
  keeps (calls_extend is_transfer) (object_body bucket obj).
Proof.
  apply keeps_object_body.
  - apply calls_extend_refl.
  - apply calls_extend_trans.
  - intros; apply calls_extend_same; reflexivity.
  - intros; apply calls_extend_same; reflexivity.
  - intros; apply calls_extend_same; reflexivity.
  - intros b path w.
    destruct (download old_supabase_client b path w) as [[d|e] w1] eqn:D.
    + apply download_ok in D. destruct D as (_ & _ & _ & _ & _ & Hc).
      eapply calls_extend_one; [|exact Hc]. reflexivity.
    + apply download_err in D. destruct D as (_ & _ & _ & _ & Hc).
      eapply calls_extend_one; [|exact Hc]. reflexivity.
  - intros b path file w.
    destruct (upload new_supabase_client b path file w) as [[[]|e] w1] eqn:U.
    + apply upload_ok in U.
      destruct U as (d & _ & _ & _ & _ & _ & _ & _ & Hc).
      eapply calls_extend_one; [|exact Hc]. reflexivity.
    + apply upload_err in U. destruct U as (_ & _ & _ & _ & Hc).
      eapply calls_extend_one; [|exact Hc]. reflexivity.
Qed.

Lemma transfers_for_each bucket objects :
  keeps (calls_extend is_transfer) (for_each objects (object_body bucket)).
Proof.
  apply keeps_for_each.
  - apply calls_extend_refl.
  - apply calls_extend_trans.
  - apply transfers_object_body.
Qed.

(** C7, as the code has it.  For every bucket the objects are listed from
    the source first (line 31).  If the listing raises, that call is the
    only one made and no creation is attempted; otherwise the one attempt to
    create the bucket in the destination (line 33) follows it immediately,
    and all later calls are downloads and uploads. *)
Theorem listing_precedes_bucket_creation (bucket : Bucket) (w : world) :
  let listing := Storage old_supabase_client (ListObjects (name bucket)) in
  let creation :=
    Storage new_supabase_client (CreateBucket (name bucket) (public bucket)) in
  match fst (bucket_body bucket w) with
  | Err _ => calls (snd (bucket_body bucket w)) = calls w ++ [listing]
  | Ok _ =>
      exists transfers,
        calls (snd (bucket_body bucket w))
        = calls w ++ listing :: creation :: transfers
        /\ forallb is_transfer transfers = true
  end.
Proof.
  intros listing creation. rewrite bucket_body_run.
  pose proof (list_objects_calls old_supabase_client (name bucket)
                (logged ("Copying objects from " +:+ name bucket) w)) as L.
  destruct (list_objects _ _ _) as [[objects|e] w1]; simpl in L; [|exact L].
  pose proof (create_try_calls bucket w1) as C.
  pose proof (transfers_for_each bucket objects (snd (create_try bucket w1)))
    as (tr & T & F).
  pose proof (for_each_objects_returns bucket objects
                (snd (create_try bucket w1))) as R.
  rewrite R. exists tr. split; [|exact F].
  rewrite T, C, L, <- !app_assoc. reflexivity.
Qed.

(** C8. If the file has reached line 28 and [list_buckets] raises, or if it
    returns and, the buckets before [bucket] having been dealt with, the
    listing of the objects of [bucket] raises, then nothing catches the
    exception: the loop, and with it the whole file, ends with that
    exception in the world the failing call left, so that the remaining
    buckets are not touched. *)
Theorem listing_failure_propagates
    (p p' : process) (w0 w w1 : world) (e : exn) :
  exec prelude p w0 = (Ok p', w) ->
  (list_buckets old_supabase_client w = (Err e, w1)
   \/ exists before bucket after wl wb,
        list_buckets old_supabase_client w
        = (Ok (before ++ bucket :: after), wl) /\
        for_each before bucket_body wl = (Ok tt, wb) /\
        list_objects old_supabase_client (name bucket)
          (logged ("Copying objects from " +:+ name bucket) wb)
        = (Err e, w1)) ->
  migrate w = (Err e, w1) /\ script p w0 = (Err e, w1).
Proof.
  intros P H.
  assert (Hm : migrate w = (Err e, w1)).
  { unfold migrate. rewrite bind_run.
    destruct H as [H | (before & bucket & after & wl & wb & H & B & L)].
    - rewrite H. reflexivity.
    - rewrite H, for_each_app, B. simpl. rewrite bind_run, bucket_body_run, L.
      reflexivity. }
  split; [exact Hm|]. unfold script. rewrite bind_run, P. exact Hm.
Qed.

(** *** What the destination has, it keeps *)

Lemma dest_grows_same w w' : new_project w' = new_project w -> dest_grows w w'.
Proof. intros H b path data. rewrite H. auto. Qed.

Lemma dest_grows_refl w : dest_grows w w.
Proof. apply dest_grows_same. reflexivity. Qed.

Lemma dest_grows_trans w1 w2 w3 :
  dest_grows w1 w2 -> dest_grows w2 w3 -> dest_grows w1 w3.
Proof. intros H12 H23 b path data H. apply H23, H12, H. Qed.

Lemma dest_grows_upload b path file :
  keeps dest_grows (upload new_supabase_client b path file).
Proof.
  intros w. rewrite upload_run.
  destruct (files w !! file) as [data|];
    [|apply dest_grows_same; reflexivity].
  pose proof (faulted_frame
    (recorded (Storage new_supabase_client (Upload b path file)) w)) as F.
  destruct (faulted _) as [[f|] w0]; simpl in F;
    destruct F as (_ & Fn & _); simpl;
    [apply dest_grows_same; exact Fn|].
  destruct (put_object b path data (new_project w0)) as [msg|p'] eqn:P; simpl;
    [apply dest_grows_same; exact Fn|].
  intros b0 path0 data0 H. simpl. rewrite <- Fn in H.
  eapply put_object_keeps; eauto.
Qed.

Lemma dest_grows_download b path :
  keeps dest_grows (download old_supabase_client b path).
Proof.
  intros w.
  destruct (download old_supabase_client b path w) as [[d|e] w1] eqn:D;
    apply dest_grows_same.
  - apply download_ok in D. simpl. tauto.
  - apply download_err in D. simpl. tauto.
Qed.




(** ** The two scenarios of the specification, run on the model *)

(** Source with the public bucket [photos] holding [a.jpg] and [b.jpg],
    destination without buckets: afterwards the destination equals the
    source and no file is left in the working directory. *)
Example scenario_fresh_destination :
  let w := snd (migrate (start [] [])) in
  fst (migrate (start [] [])) = Ok tt /\
  new_project w = source_photos /\ old_project w = source_photos /\
  files w = ∅ /\
  stdout w = ["Copying objects from photos"; "a.jpg"; "b.jpg"].
Proof. vm_compute. repeat split; reflexivity. Qed.

(** The destination already has the bucket: [create_bucket] fails, and the
    objects are copied into the bucket all the same. *)
Example scenario_existing_bucket :
  let w := snd (migrate (start empty_photos [])) in
  fst (migrate (start empty_photos [])) = Ok tt /\
  new_project w = source_photos /\ files w = ∅ /\
  stdout w = ["Copying objects from photos"; "unable to create bucket";
              "a.jpg"; "b.jpg"].
Proof. vm_compute. repeat split; reflexivity. Qed.

(** ** The claims that fail, on the concrete project *)


(** C7 fails.  On the source above and an empty destination the calls are
    made in the order shown: the objects of [photos] are listed second, the
    bucket is created third. *)
Lemma listing_comes_before_creation :
  calls (snd (migrate (start [] [])))
  = [ Storage old_supabase_client ListBuckets;
      Storage old_supabase_client (ListObjects "photos");
      Storage new_supabase_client (CreateBucket "photos" true);
      Storage old_supabase_client (Download "photos" "a.jpg");
      Storage new_supabase_client (Upload "photos" "a.jpg" "a.jpg");
      Storage old_supabase_client (Download "photos" "b.jpg");
      Storage new_supabase_client (Upload "photos" "b.jpg" "b.jpg") ]
  /\ ~ creation_precedes_listing (calls (snd (migrate (start [] [])))).
Proof.
  assert (E : calls (snd (migrate (start [] []))) =
    [ Storage old_supabase_client ListBuckets;
      Storage old_supabase_client (ListObjects "photos");
      Storage new_supabase_client (CreateBucket "photos" true);
      Storage old_supabase_client (Download "photos" "a.jpg");
      Storage new_supabase_client (Upload "photos" "a.jpg" "a.jpg");
      Storage old_supabase_client (Download "photos" "b.jpg");
      Storage new_supabase_client (Upload "photos" "b.jpg" "b.jpg") ])
    by (vm_compute; reflexivity).
  split; [exact E|]. rewrite E. intros H.
  destruct (H 1 "photos" eq_refl) as (j & pub & Hj & Hc).
  destruct j as [|j]; [discriminate | lia].
Qed.

(** *** Instances *)


Lemma transferred_object_copied_witness :
  let w := start empty_photos [] in
  let w1 := snd (download_block photos a_jpg (logged "a.jpg" w)) in
  let w2 := snd (upload_block photos a_jpg w1) in
  download_block photos a_jpg (logged "a.jpg" w) = (Ok tt, w1) /\
  upload_block photos a_jpg w1 = (Ok tt, w2) /\
  object_body photos a_jpg w = (Ok tt, w2) /\
  exists data,
    lookup_object (old_project w) "photos" "a.jpg" = Some data /\
    lookup_object (new_project w2) "photos" "a.jpg" = Some data /\
    files w2 !! "a.jpg" = None.
Proof.
  intros w w1 w2.
  assert (D : download_block photos a_jpg (logged "a.jpg" w) = (Ok tt, w1))
    by (vm_compute; reflexivity).
  assert (U : upload_block photos a_jpg w1 = (Ok tt, w2))
    by (vm_compute; reflexivity).
  split; [exact D|]. split; [exact U|].
  exact (transferred_object_copied photos a_jpg w w1 w2 D U).
Defined.

Lemma failed_download_uploads_empty_file_witness :
  let w := start empty_photos [None; Some timeout] in
  let w1 := snd (open_wb "a.jpg" (logged "a.jpg" w)) in
  let w2 := snd (download old_supabase_client "photos" "a.jpg" w1) in
  open_wb "a.jpg" (logged "a.jpg" w) = (Ok tt, w1) /\
  download old_supabase_client "photos" "a.jpg" w1
  = (Err (StorageError "timeout"), w2) /\
  files (logged "error downloading timeout" w2) !! "a.jpg" = Some [] /\
  object_body photos a_jpg w
  = upload_try photos a_jpg (logged "error downloading timeout" w2).
Proof.
  intros w w1 w2.
  assert (O : open_wb (obj_name a_jpg) (logged (obj_name a_jpg) w) = (Ok tt, w1))
    by (vm_compute; reflexivity).
  assert (D : download old_supabase_client (name photos) (obj_name a_jpg) w1
              = (Err (StorageError "timeout"), w2))
    by (vm_compute; reflexivity).
  split; [exact O|]. split; [exact D|].
  destruct (failed_download_uploads_empty_file photos a_jpg w w1 w2 _ O D)
    as (F & B & _).
  split; [exact F | exact B].
Defined.


Lemma listing_failure_propagates_witness :
  let w0 := start [] [None; None; Some timeout] in
  let ran := exec prelude with_os w0 in
  let p' := match fst ran with Ok q => q | Err _ => with_os end in
  let w1 := snd (list_buckets old_supabase_client (snd ran)) in
  ran = (Ok p', snd ran) /\
  list_buckets old_supabase_client (snd ran)
  = (Err (StorageError "timeout"), w1) /\
  migrate (snd ran) = (Err (StorageError "timeout"), w1) /\
  script with_os w0 = (Err (StorageError "timeout"), w1).
Proof.
  intros w0 ran p' w1.
  assert (P : exec prelude with_os w0 = (Ok p', snd ran))
    by (vm_compute; reflexivity).
  assert (L : list_buckets old_supabase_client (snd ran)
              = (Err (StorageError "timeout"), w1))
    by (vm_compute; reflexivity).
  split; [exact P|]. split; [exact L|].
  exact (listing_failure_propagates with_os p' w0 (snd ran) w1 _ P
           (or_introl L)).
Defined.

(** * Further properties of the loop *)

(** ** What a request leaves alone *)

Lemma find_app_first {A} (f : A -> bool) (l l' : list A) x :
  find f l = Some x -> find f (l ++ l') = Some x.
Proof.
  induction l as [|y l IH]; simpl; [discriminate|].
  destruct (f y); auto.
Qed.

Lemma find_app_none {A} (f : A -> bool) (l l' : list A) :
  find f l = None -> find f (l ++ l') = find f l'.
Proof.
  induction l as [|y l IH]; simpl; [reflexivity|].
  destruct (f y); [discriminate | auto].
Qed.

Lemma storage_call_frame {A} c r (serve : project -> string + A * project) w :
  files (snd (storage_call c r serve w)) = files w /\
  stdout (snd (storage_call c r serve w)) = stdout w /\
  calls (snd (storage_call c r serve w)) = calls w ++ [Storage c r].
Proof.
  rewrite storage_call_run.
  pose proof (faulted_frame (recorded (Storage c r) w)) as F.
  destruct (faulted _) as [[f|] w1]; simpl in F;
    destruct F as (_ & _ & Ff & Fs & Fc); [auto|].
  unfold served. destruct (serve _) as [msg|[a p]]; simpl; [auto|].
  destruct c; simpl; auto.
Qed.

Lemma list_buckets_run c w :
  list_buckets c w =
  match faulted (recorded (Storage c ListBuckets) w) with
  | (Some f, w1) => (Err (StorageError (fmsg f)), w1)
  | (None, w1) => (Ok (map describe_bucket (project_of c w1)), w1)
  end.
Proof.
  unfold list_buckets. rewrite storage_call_run.
  destruct (faulted _) as [[f|] w1]; [reflexivity|].
  unfold served, serve_list_buckets. rewrite with_project_same. reflexivity.
Qed.

(** A listing of objects that returns hands over the objects of a bucket of
    that name in the project. *)
Lemma list_objects_ok c b w objects w1 :
  list_objects c b w = (Ok objects, w1) ->
  exists k,
    find_bucket (project_of c w) b = Some k /\
    objects = map describe_object (bobjects k) /\
    old_project w1 = old_project w /\ new_project w1 = new_project w /\
    files w1 = files w.
Proof.
  rewrite list_objects_run.
  pose proof (faulted_frame (recorded (Storage c (ListObjects b)) w)) as F.
  destruct (faulted _) as [[f|] w0]; [discriminate|]. simpl in F.
  destruct F as (Fo & Fn & Ff & _ & _).
  destruct (find_bucket (project_of c w0) b) as [k|] eqn:E; [|discriminate].
  intros [= <- <-]. exists k.
  assert (project_of c w0 = project_of c w) as <- by (destruct c; assumption).
  repeat split; assumption.
Qed.

(** ** The destination keeps what it has, over a whole run *)

Lemma lookup_object_app p b path data k :
  lookup_object p b path = Some data ->
  lookup_object (p ++ [k]) b path = Some data.
Proof.
  unfold lookup_object, find_bucket.
  destruct (find _ p) as [k0|] eqn:E; [|discriminate].
  rewrite (find_app_first _ _ _ _ E). auto.
Qed.

Lemma dest_grows_create_bucket b pub :
  keeps dest_grows (create_bucket new_supabase_client b pub).
Proof.
  intros w. rewrite create_bucket_run.
  pose proof (faulted_frame
    (recorded (Storage new_supabase_client (CreateBucket b pub)) w)) as F.
  destruct (faulted _) as [[f|] w0]; simpl in F;
    destruct F as (_ & Fn & _); simpl;
    [apply dest_grows_same; exact Fn|].
  destruct (find_bucket (new_project w0) b); simpl;
    [apply dest_grows_same; exact Fn|].
  intros b0 path0 data0 H. simpl. rewrite <- Fn in H.
  apply lookup_object_app. exact H.
Qed.

Lemma dest_grows_old_call {A} r (serve : project -> string + A * project) :
  keeps dest_grows (storage_call old_supabase_client r serve).
Proof.
  intros w. apply dest_grows_same. rewrite storage_call_run.
  pose proof (faulted_frame (recorded (Storage old_supabase_client r) w)) as F.
  destruct (faulted _) as [[f|] w0]; simpl in F;
    destruct F as (_ & Fn & _); [exact Fn|].
  unfold served. destruct (serve _) as [msg|[a p]]; exact Fn.
Qed.

(** X1. Over a whole run of the loop, whatever fails, every object that the
    destination project had at the start is still there at the end, under
    the same name in the same bucket and with the same bytes: the loop
    never overwrites and never removes an object of the destination. *)
Theorem destination_objects_are_kept (w : world) (b path : string) (data : bytes) :
  lookup_object (new_project w) b path = Some data ->
  lookup_object (new_project (snd (migrate w))) b path = Some data.
Proof.
  revert b path data. change (dest_grows w (snd (migrate w))).
  apply keeps_migrate.
  - apply dest_grows_refl.
  - apply dest_grows_trans.
  - intros; apply dest_grows_same; reflexivity.
  - intros; apply dest_grows_same; reflexivity.
  - intros; apply dest_grows_same; reflexivity.
  - apply dest_grows_old_call.
  - intros b. apply dest_grows_old_call.
  - apply dest_grows_download.
  - apply dest_grows_create_bucket.
  - apply dest_grows_upload.
Qed.

Lemma destination_objects_are_kept_witness :
  let w := start [ {| bname := "docs"; bpublic := false;
                      bobjects := [ {| oname := "a.jpg"; ocontent := [x09] |} ] |} ]
                 [] in
  lookup_object (new_project w) "docs" "a.jpg" = Some [x09] /\
  lookup_object (new_project (snd (migrate w))) "docs" "a.jpg" = Some [x09].
Proof.
  intros w.
  assert (H : lookup_object (new_project w) "docs" "a.jpg" = Some [x09])
    by reflexivity.
  split; [exact H|].
  exact (destination_objects_are_kept w "docs" "a.jpg" [x09] H).
Defined.

(** ** The buckets of the destination *)

Lemma put_object_headers b path data p p' :
  put_object b path data p = inr p' -> headers p' = headers p.
Proof.
  revert p'. induction p as [|k rest IH]; intros p'; simpl; [discriminate|].
  destruct (String.eqb (bname k) b).
  - destruct (find_object k path); [discriminate|]. intros [= <-]. reflexivity.
  - destruct (put_object b path data rest) as [msg|rest']; [discriminate|].
    intros [= <-]. unfold headers in *. simpl. f_equal. apply IH. reflexivity.
Qed.

Lemma same_buckets_same w w' :
  old_project w' = old_project w -> new_project w' = new_project w ->
  same_buckets w w'.
Proof. intros Ho Hn. split; [exact Ho | rewrite Hn; reflexivity]. Qed.

Lemma same_buckets_refl w : same_buckets w w.
Proof. apply same_buckets_same; reflexivity. Qed.

Lemma same_buckets_trans w1 w2 w3 :
  same_buckets w1 w2 -> same_buckets w2 w3 -> same_buckets w1 w3.
Proof. intros [Ho Hn] [Ho' Hn']. split; congruence. Qed.

Lemma same_buckets_download b path :
  keeps same_buckets (download old_supabase_client b path).
Proof.
  intros w.
  destruct (download old_supabase_client b path w) as [[d|e] w1] eqn:D;
    apply same_buckets_same; simpl.
  - apply download_ok in D. tauto.
  - apply download_ok in D. tauto.
  - apply download_err in D. tauto.
  - apply download_err in D. tauto.
Qed.

Lemma same_buckets_upload b path file :
  keeps same_buckets (upload new_supabase_client b path file).
Proof.
  intros w. rewrite upload_run.
  destruct (files w !! file) as [data|];
    [|apply same_buckets_same; reflexivity].
  pose proof (faulted_frame
    (recorded (Storage new_supabase_client (Upload b path file)) w)) as F.
  destruct (faulted _) as [[f|] w0]; simpl in F;
    destruct F as (Fo & Fn & _); simpl;
    [apply same_buckets_same; assumption|].
  destruct (put_object b path data (new_project w0)) as [msg|p'] eqn:P; simpl;
    [apply same_buckets_same; assumption|].
  split; simpl; [exact Fo|].
  rewrite (put_object_headers _ _ _ _ _ P), Fn. reflexivity.
Qed.

Lemma same_buckets_for_each bucket objects :
  keeps same_buckets (for_each objects (object_body bucket)).
Proof.
  apply keeps_for_each;
    [apply same_buckets_refl | apply same_buckets_trans | intros obj].
  apply keeps_object_body.
  - apply same_buckets_refl.
  - apply same_buckets_trans.
  - intros; apply same_buckets_same; reflexivity.
  - intros; apply same_buckets_same; reflexivity.
  - intros; apply same_buckets_same; reflexivity.
  - apply same_buckets_download.
  - apply same_buckets_upload.
Qed.

Lemma added_refl w : buckets_added_from_source w w.
Proof.
  split; [reflexivity|]. exists []. rewrite app_nil_r.
  split; [reflexivity | intros x []].
Qed.

Lemma added_trans w1 w2 w3 :
  buckets_added_from_source w1 w2 -> buckets_added_from_source w2 w3 ->
  buckets_added_from_source w1 w3.
Proof.
  intros [Ho (a & Ha & Ia)] [Ho' (a' & Ha' & Ia')]. split; [congruence|].
  exists (a ++ a'). rewrite Ha', Ha, <- app_assoc. split; [reflexivity|].
  rewrite Ho in Ia'. apply incl_app; assumption.
Qed.

Lemma added_of_same w w' :
  same_buckets w w' -> buckets_added_from_source w w'.
Proof.
  intros [Ho Hn]. split; [exact Ho|]. exists []. rewrite app_nil_r.
  split; [exact Hn | intros x []].
Qed.

(** Line 33 adds at most the bucket it names. *)
Lemma create_try_headers bucket w :
  old_project (snd (create_try bucket w)) = old_project w /\
  (headers (new_project (snd (create_try bucket w))) = headers (new_project w)
   \/ headers (new_project (snd (create_try bucket w)))
      = headers (new_project w) ++ [(name bucket, public bucket)]).
Proof.
  unfold create_try, try_except. rewrite create_bucket_run.
  pose proof (faulted_frame
    (recorded (Storage new_supabase_client
                 (CreateBucket (name bucket) (public bucket))) w)) as F.
  destruct (faulted _) as [[f|] w0]; simpl in F;
    destruct F as (Fo & Fn & _); simpl.
  - split; [exact Fo | left; rewrite Fn; reflexivity].
  - destruct (find_bucket (new_project w0) (name bucket)); simpl.
    + split; [exact Fo | left; rewrite Fn; reflexivity].
    + split; [exact Fo|]. right. unfold headers. rewrite map_app, Fn.
      reflexivity.
Qed.

(** A listing that raises leaves both projects as they are. *)
Lemma added_bucket_body_err bucket w e w1 :
  list_objects old_supabase_client (name bucket)
    (logged ("Copying objects from " +:+ name bucket) w) = (Err e, w1) ->
  old_project w1 = old_project w /\ new_project w1 = new_project w.
Proof.
  rewrite list_objects_run.
  pose proof (faulted_frame
    (recorded (Storage old_supabase_client (ListObjects (name bucket)))
       (logged ("Copying objects from " +:+ name bucket) w))) as F.
  destruct (faulted _) as [[f|] w0]; simpl in F;
    destruct F as (Fo & Fn & _).
  - intros [= _ <-]. auto.
  - destruct (find_bucket _ _); [discriminate|]. intros [= _ <-]. auto.
Qed.

Lemma added_bucket_body bucket w :
  In (name bucket, public bucket) (headers (old_project w)) ->
  buckets_added_from_source w (snd (bucket_body bucket w)).
Proof.
  intros Hin. rewrite bucket_body_run.
  destruct (list_objects _ _ _) as [[objects|e] w1] eqn:L.
  - apply list_objects_ok in L.
    destruct L as (k & _ & _ & Lo & Ln & _). simpl in Lo, Ln.
    destruct (create_try_headers bucket w1) as [Co Cn].
    destruct (same_buckets_for_each bucket objects (snd (create_try bucket w1)))
      as [So Sn].
    split; [congruence|]. rewrite Sn.
    destruct Cn as [Cn|Cn]; rewrite Cn, Ln.
    + exists []. rewrite app_nil_r. split; [reflexivity | intros x []].
    + exists [(name bucket, public bucket)]. split; [reflexivity|].
      intros x [<-|[]]. exact Hin.
  - simpl. apply added_of_same.
    destruct (added_bucket_body_err bucket w e w1 L) as [Ho Hn].
    apply same_buckets_same; assumption.
Qed.

Lemma added_for_each buckets w :
  (forall b, In b buckets -> In (name b, public b) (headers (old_project w))) ->
  buckets_added_from_source w (snd (for_each buckets bucket_body w)).
Proof.
  revert w. induction buckets as [|b rest IH]; intros w H; simpl.
  - apply added_refl.
  - rewrite bind_run.
    pose proof (added_bucket_body b w (H b (or_introl eq_refl))) as Hb.
    destruct (bucket_body b w) as [[[]|e] w1]; simpl in Hb; [|exact Hb].
    eapply added_trans; [exact Hb|]. apply IH. intros b' Hb'.
    destruct Hb as [-> _]. apply H. right. exact Hb'.
Qed.

(** X2. Over a whole run of the loop, whatever fails, the destination keeps
    the buckets it had, with their visibility and in their order; the only
    buckets that come on top have the name and the visibility of a bucket
    of the source (lines 29 and 33). *)
Theorem destination_buckets_come_from_source (w : world) :
  buckets_added_from_source w (snd (migrate w)).
Proof.
  unfold migrate. rewrite bind_run, list_buckets_run.
  pose proof (faulted_frame (recorded (Storage old_supabase_client ListBuckets) w))
    as F.
  destruct (faulted _) as [[f|] w0]; simpl in F;
    destruct F as (Fo & Fn & _).
  - simpl. apply added_of_same. apply same_buckets_same; assumption.
  - eapply added_trans;
      [apply added_of_same, (same_buckets_same w w0); assumption|].
    apply added_for_each. intros b Hb. simpl in Hb.
    apply in_map_iff in Hb. destruct Hb as (k & <- & Hk). simpl.
    unfold headers. apply in_map_iff. exists k. auto.
Qed.

(** ** The working directory *)

Lemma open_wb_other path other w :
  other <> path ->
  files (snd (open_wb path w)) !! other = files w !! other.
Proof.
  intros Hne. rewrite open_wb_run. pose proof (faulted_frame w) as F.
  destruct (faulted w) as [[f|] w1]; simpl in F;
    destruct F as (_ & _ & Ff & _); simpl; rewrite Ff; [reflexivity|].
  apply lookup_insert_ne. congruence.
Qed.

Lemma write_other path data other w :
  other <> path ->
  files (snd (write path data w)) !! other = files w !! other.
Proof.
  intros Hne. rewrite write_run. pose proof (faulted_frame w) as F.
  destruct (faulted w) as [[f|] w1]; simpl in F;
    destruct F as (_ & _ & Ff & _); simpl; rewrite Ff;
    apply lookup_insert_ne; congruence.
Qed.

Lemma download_files b path w :
  files (snd (download old_supabase_client b path w)) = files w.
Proof.
  destruct (download old_supabase_client b path w) as [[d|e] w1] eqn:D; simpl.
  - apply download_ok in D. tauto.
  - apply download_err in D. tauto.
Qed.

Lemma upload_files b path file w :
  files (snd (upload new_supabase_client b path file w)) = files w.
Proof.
  destruct (upload new_supabase_client b path file w) as [[[]|e] w1] eqn:U;
    simpl.
  - apply upload_ok in U. destruct U as (d & _ & _ & _ & _ & Hf & _). exact Hf.
  - apply upload_err in U. tauto.
Qed.

Lemma download_block_other bucket obj other w :
  other <> obj_name obj ->
  files (snd (download_block bucket obj w)) !! other = files w !! other.
Proof.
  intros Hne. rewrite download_block_run.
  pose proof (open_wb_other (obj_name obj) other w Hne) as O.
  destruct (open_wb (obj_name obj) w) as [[[]|e] w1]; simpl in O; [|exact O].
  pose proof (download_files (name bucket) (obj_name obj) w1) as D.
  destruct (download _ _ _ w1) as [[res|e] w2]; simpl in D.
  - rewrite (write_other _ _ _ _ Hne), D. exact O.
  - simpl. rewrite D. exact O.
Qed.

Lemma upload_block_other bucket obj other w :
  other <> obj_name obj ->
  files (snd (upload_block bucket obj w)) !! other = files w !! other.
Proof.
  intros Hne. rewrite upload_block_run.
  destruct (files w !! obj_name obj); [|reflexivity].
  pose proof (upload_files (name bucket) (obj_name obj) (obj_name obj) w) as U.
  destruct (upload _ _ _ _ w) as [[[]|e] w1]; simpl in *.
  - rewrite lookup_delete_ne by congruence. rewrite U. reflexivity.
  - rewrite U. reflexivity.
Qed.

Lemma object_body_other bucket obj other w :
  other <> obj_name obj ->
  files (snd (object_body bucket obj w)) !! other = files w !! other.
Proof.
  intros Hne. rewrite object_body_run, upload_try_run.
  set (w1 := snd (download_try bucket obj (logged (obj_name obj) w))).
  assert (H1 : files w1 !! other = files w !! other).
  { subst w1. rewrite download_try_run.
    pose proof (download_block_other bucket obj other
                  (logged (obj_name obj) w) Hne) as D.
    destruct (download_block _ _ _) as [[[]|e] w2]; exact D. }
  pose proof (upload_block_other bucket obj other w1 Hne) as U.
  destruct (upload_block bucket obj w1) as [[[]|e] w2]; simpl in *; congruence.
Qed.

Lemma for_each_objects_other bucket objects other w :
  ~ In other (map obj_name objects) ->
  files (snd (for_each objects (object_body bucket) w)) !! other
  = files w !! other.
Proof.
  revert w. induction objects as [|o rest IH]; intros w Hn; simpl;
    [reflexivity|].
  rewrite bind_run.
  pose proof (object_body_other bucket o other w) as Ho.
  pose proof (object_body_returns bucket o w) as R.
  destruct (object_body bucket o w) as [[[]|e] w1]; [|discriminate].
  simpl in Ho. rewrite IH, Ho; [reflexivity | |]; intros H; apply Hn; simpl;
    auto.
Qed.

Lemma create_try_files bucket w : files (snd (create_try bucket w)) = files w.
Proof.
  unfold create_try, try_except.
  pose proof (storage_call_frame new_supabase_client
                (CreateBucket (name bucket) (public bucket))
                (serve_create_bucket (name bucket) (public bucket)) w) as F.
  fold (create_bucket new_supabase_client (name bucket) (public bucket)) in F.
  destruct (create_bucket _ _ _ w) as [[[]|e] w1]; simpl in *; tauto.
Qed.

Lemma names_of_bucket p b k :
  find_bucket p b = Some k ->
  incl (map oname (bobjects k)) (all_object_names p).
Proof.
  intros H n Hn. apply find_some in H. destruct H as [Hk _].
  unfold all_object_names. apply in_concat.
  exists (map oname (bobjects k)). split; [|exact Hn].
  apply in_map_iff. exists k. auto.
Qed.

Lemma source_frame_bucket_body bucket :
  keeps source_frame (bucket_body bucket).
Proof.
  apply keeps_bucket_body; try frame_side.
  - apply source_frame_list_objects.
  - apply source_frame_download.
  - intros b pub. apply keeps_storage_call; try frame_side.
    + apply source_frame_record. reflexivity.
    + apply source_frame_served_new.
  - apply source_frame_upload.
Qed.

Lemma bucket_body_other bucket other w :
  ~ In other (all_object_names (old_project w)) ->
  files (snd (bucket_body bucket w)) !! other = files w !! other.
Proof.
  intros Hn. rewrite bucket_body_run.
  destruct (list_objects _ _ _) as [[objects|e] w1] eqn:L.
  - apply list_objects_ok in L.
    destruct L as (k & Hk & -> & _ & _ & Lf). simpl in Hk, Lf.
    rewrite for_each_objects_other, create_try_files, Lf; [reflexivity|].
    intros H. apply Hn. apply (names_of_bucket _ _ _ Hk).
    rewrite map_map in H. exact H.
  - pose proof (storage_call_frame old_supabase_client
                  (ListObjects (name bucket)) (serve_list (name bucket))
                  (logged ("Copying objects from " +:+ name bucket) w)) as F.
    fold (list_objects old_supabase_client (name bucket)) in F.
    rewrite L in F. simpl in *. destruct F as (-> & _). reflexivity.
Qed.

(** X3. Over a whole run of the loop, whatever fails, a file of the working
    directory whose name is not the name of an object of the source is
    never created, changed or removed. *)
Theorem other_files_are_untouched (w : world) (other : string) :
  ~ In other (all_object_names (old_project w)) ->
  files (snd (migrate w)) !! other = files w !! other.
Proof.
  intros Hn. unfold migrate. rewrite bind_run.
  pose proof (storage_call_frame old_supabase_client ListBuckets
                serve_list_buckets w) as F.
  fold (list_buckets old_supabase_client) in F.
  assert (Ho : old_project (snd (list_buckets old_supabase_client w))
               = old_project w).
  { rewrite list_buckets_run.
    pose proof (faulted_frame
      (recorded (Storage old_supabase_client ListBuckets) w)) as G.
    destruct (faulted _) as [[f|] w0]; simpl in G; tauto. }
  destruct (list_buckets old_supabase_client w) as [[buckets|e] w1];
    simpl in *; destruct F as (Ff & _); [|rewrite Ff; reflexivity].
  rewrite <- Ff. rewrite <- Ho in Hn. clear Ff Ho.
  revert w1 Hn. induction buckets as [|b rest IH]; intros w1 Hn; simpl;
    [reflexivity|].
  rewrite bind_run.
  pose proof (bucket_body_other b other w1 Hn) as Hb.
  destruct (source_frame_bucket_body b w1) as [Hs _].
  destruct (bucket_body b w1) as [[[]|e] w2]; simpl in *; [|exact Hb].
  rewrite IH; [exact Hb|]. rewrite Hs. exact Hn.
Qed.

Lemma other_files_are_untouched_witness :
  let w := with_files {[ "notes.txt" := [x07] ]} (start [] []) in
  ~ In "notes.txt" (all_object_names (old_project w)) /\
  files (snd (migrate w)) !! "notes.txt" = Some [x07].
Proof.
  intros w.
  assert (H : ~ In "notes.txt" (all_object_names (old_project w))).
  { simpl. intros [H|[H|[]]]; discriminate. }
  split; [exact H|].
  exact (other_files_are_untouched w "notes.txt" H).
Defined.

(** ** Which exceptions leave the loop, and how often a call is made *)

Lemma list_buckets_calls w :
  calls (snd (list_buckets old_supabase_client w))
  = calls w ++ [Storage old_supabase_client ListBuckets].
Proof.
  pose proof (storage_call_frame old_supabase_client ListBuckets
                serve_list_buckets w) as F.
  tauto.
Qed.

(** A bucket that ends with an exception ends with its listing. *)
Lemma bucket_body_raises bucket w e :
  fst (bucket_body bucket w) = Err e ->
  calls (snd (bucket_body bucket w))
  = calls w ++ [Storage old_supabase_client (ListObjects (name bucket))].
Proof.
  rewrite bucket_body_run.
  pose proof (list_objects_calls old_supabase_client (name bucket)
                (logged ("Copying objects from " +:+ name bucket) w)) as L.
  destruct (list_objects _ _ _) as [[objects|e'] w1]; simpl in L.
  - rewrite for_each_objects_returns. discriminate.
  - intros _. exact L.
Qed.

Lemma any_calls_bucket_body bucket :
  keeps (calls_extend (fun _ => true)) (bucket_body bucket).
Proof.
  apply keeps_bucket_body.
  - apply calls_extend_refl.
  - apply calls_extend_trans.
  - intros; apply calls_extend_same; reflexivity.
  - intros; apply calls_extend_same; reflexivity.
  - intros; apply calls_extend_same; reflexivity.
  - intros b w. eapply calls_extend_one; [|apply list_objects_calls].
    reflexivity.
  - intros b path w. eapply calls_extend_one; [reflexivity|].
    apply (storage_call_frame old_supabase_client (Download b path)
             (serve_download b path) w).
  - intros b pub w. eapply calls_extend_one; [|apply create_bucket_calls].
    reflexivity.
  - intros b path file w.
    destruct (upload new_supabase_client b path file w) as [[[]|e] w1] eqn:U.
    + apply upload_ok in U.
      destruct U as (d & _ & _ & _ & _ & _ & _ & _ & Hc).
      eapply calls_extend_one; [|exact Hc]. reflexivity.
    + apply upload_err in U. destruct U as (_ & _ & _ & _ & Hc).
      eapply calls_extend_one; [|exact Hc]. reflexivity.
Qed.

Lemma for_each_buckets_raises buckets w e :
  fst (for_each buckets bucket_body w) = Err e ->
  exists tr b,
    calls (snd (for_each buckets bucket_body w))
    = calls w ++ tr ++ [Storage old_supabase_client (ListObjects b)].
Proof.
  revert w. induction buckets as [|b rest IH]; intros w; simpl;
    [discriminate|].
  rewrite bind_run.
  pose proof (bucket_body_raises b w) as Hr.
  destruct (any_calls_bucket_body b w) as (tr & Hc & _).
  destruct (bucket_body b w) as [[[]|e'] w1]; simpl in *.
  - intros H. destruct (IH w1 H) as (tr' & b' & Hc').
    exists (tr ++ tr'), b'. rewrite Hc', Hc, <- !app_assoc. reflexivity.
  - intros _. exists [], (name b). apply (Hr e' eq_refl).
Qed.

(** X4. The only exceptions that leave the loop are those of the two
    listing calls: when a run of the loop ends with an exception, the last
    call made is [list_buckets] or the listing of the objects of a bucket,
    through the source client.  No failure of a bucket creation, a
    download, an upload or a file operation ends the run. *)
Theorem only_listing_failures_escape (w : world) (e : exn) :
  fst (migrate w) = Err e ->
  exists tr r,
    calls (snd (migrate w)) = calls w ++ tr ++ [Storage old_supabase_client r]
    /\ is_listing r = true.
Proof.
  unfold migrate. rewrite bind_run.
  pose proof (list_buckets_calls w) as L.
  destruct (list_buckets old_supabase_client w) as [[buckets|e'] w1];
    simpl in L.
  - intros H. destruct (for_each_buckets_raises buckets w1 e H)
      as (tr & b & Hc).
    exists (Storage old_supabase_client ListBuckets :: tr), (ListObjects b).
    rewrite Hc, L, <- app_assoc. split; reflexivity.
  - intros _. exists [], ListBuckets. split; [exact L | reflexivity].
Qed.

Lemma only_listing_failures_escape_witness :
  let w := start [] [None; Some timeout] in
  fst (migrate w) = Err (StorageError "timeout") /\
  exists tr r,
    calls (snd (migrate w)) = calls w ++ tr ++ [Storage old_supabase_client r]
    /\ is_listing r = true.
Proof.
  intros w.
  assert (H : fst (migrate w) = Err (StorageError "timeout"))
    by (vm_compute; reflexivity).
  split; [exact H|].
  exact (only_listing_failures_escape w _ H).
Defined.

(** X5. In the cycle of one object there is no retry: the calls made are
    none at all, or one upload, or one download followed by one upload.  A
    download is always followed by the upload attempt, whether it returned
    or raised. *)
Theorem one_download_and_one_upload_at_most
    (bucket : Bucket) (obj : Obj) (w : world) :
  let down :=
    Storage old_supabase_client (Download (name bucket) (obj_name obj)) in
  let up :=
    Storage new_supabase_client
      (Upload (name bucket) (obj_name obj) (obj_name obj)) in
  let made := calls (snd (object_body bucket obj w)) in
  made = calls w \/ made = calls w ++ [up] \/ made = calls w ++ [down; up].
Proof.
  intros down up made. subst made.
  rewrite object_body_run, upload_try_run, upload_block_run.
  set (w1 := snd (download_try bucket obj (logged (obj_name obj) w))).
  assert (H1 : (calls w1 = calls w /\
                files w1 !! obj_name obj = files w !! obj_name obj)
               \/ (calls w1 = calls w ++ [down]
                   /\ is_Some (files w1 !! obj_name obj))).
  { subst w1. rewrite download_try_run, download_block_run, open_wb_run.
    pose proof (faulted_frame (logged (obj_name obj) w)) as F.
    destruct (faulted _) as [[f|] wa]; simpl in F;
      destruct F as (_ & _ & Ff & _ & Fc); [left; simpl; split; congruence|].
    right.
    set (wb := with_files (<[obj_name obj:=[]]> (files wa)) wa).
    destruct (download _ _ _ wb) as [[res|e] wc] eqn:D.
    - apply download_ok in D. destruct D as (_ & Df & _ & _ & _ & Dc).
      rewrite write_run. pose proof (faulted_frame wc) as G.
      destruct (faulted wc) as [[f|] wd]; simpl in G;
        destruct G as (_ & _ & _ & _ & Gc); simpl;
        rewrite lookup_insert_eq, Gc, Dc; simpl; rewrite Fc; eauto.
    - apply download_err in D. destruct D as (Df & _ & _ & _ & Dc).
      simpl. rewrite Df, Dc. simpl. rewrite lookup_insert_eq, Fc. eauto. }
  destruct (files w1 !! obj_name obj) as [data|] eqn:Hf.
  - assert (Hc : calls (snd (upload new_supabase_client (name bucket)
                               (obj_name obj) (obj_name obj) w1))
                 = calls w1 ++ [up]).
    { destruct (upload _ _ _ _ w1) as [[[]|e] w2] eqn:U; simpl.
      - apply upload_ok in U.
        destruct U as (d & _ & _ & _ & _ & _ & _ & _ & Hc). exact Hc.
      - apply upload_err in U. tauto. }
    destruct (upload _ _ _ _ w1) as [[[]|e] w2]; simpl in *;
      destruct H1 as [[H1 _]|[H1 _]]; rewrite Hc, H1, <- ?app_assoc; auto.
  - simpl. destruct H1 as [[H1 _]|[_ [x Hx]]]; [auto | discriminate].
Qed.

(** ** What the destination receives when the write has failed *)

(** X7. A write that fails leaves a part of the object, and that part is
    sent: when the file was opened, the download returned [data] and the
    write then raises, the local file holds a beginning of [data]; the
    upload is attempted with it, and if it returns the destination has the
    object with that beginning of [data] only, and the file is gone. *)
Theorem truncated_file_is_uploaded
    (bucket : Bucket) (obj : Obj) (w w1 w2 w3 : world) (e : exn) (data : bytes) :
  open_wb (obj_name obj) (logged (obj_name obj) w) = (Ok tt, w1) ->
  download old_supabase_client (name bucket) (obj_name obj) w1
  = (Ok data, w2) ->
  write (obj_name obj) data w2 = (Err e, w3) ->
  let w4 := logged ("error downloading " +:+ str e) w3 in
  let sent :=
    upload new_supabase_client (name bucket) (obj_name obj) (obj_name obj) w4 in
  let done := snd (object_body bucket obj w) in
  exists n,
    files w4 !! obj_name obj = Some (take n data) /\
    match fst sent with
    | Ok _ =>
        lookup_object (new_project done) (name bucket) (obj_name obj)
        = Some (take n data)
        /\ files done !! obj_name obj = None
    | Err _ => files done !! obj_name obj = Some (take n data)
    end.
Proof.
  intros O D W w4 sent done.
  assert (Hb : object_body bucket obj w = upload_try bucket obj w4).
  { rewrite object_body_run, download_try_run, download_block_run, O, D, W.
    reflexivity. }
  rewrite write_run in W.
  destruct (faulted w2) as [[f|] wa]; [|discriminate].
  injection W as _ <-. exists (fpartial f).
  assert (Hf : files w4 !! obj_name obj = Some (take (fpartial f) data))
    by (subst w4; simpl; apply lookup_insert_eq).
  split; [exact Hf|]. subst done sent.
  rewrite Hb, upload_try_run, upload_block_run, Hf.
  destruct (upload _ _ _ _ w4) as [[[]|e'] w5] eqn:U; simpl.
  - apply upload_ok in U. destruct U as (d & Hd & Ld & _).
    rewrite Hf in Hd. injection Hd as <-.
    split; [exact Ld | apply lookup_delete_eq].
  - apply upload_err in U. destruct U as (Uf & _). rewrite Uf. exact Hf.
Qed.

Lemma truncated_file_is_uploaded_witness :
  let w := start empty_photos
             [None; None; Some {| fmsg := "disk full"; fpartial := 1 |}] in
  let w1 := snd (open_wb "a.jpg" (logged "a.jpg" w)) in
  let w2 := snd (download old_supabase_client "photos" "a.jpg" w1) in
  let w3 := snd (write "a.jpg" [x01; x02] w2) in
  open_wb "a.jpg" (logged "a.jpg" w) = (Ok tt, w1) /\
  download old_supabase_client "photos" "a.jpg" w1 = (Ok [x01; x02], w2) /\
  write "a.jpg" [x01; x02] w2 = (Err (OSError "disk full"), w3) /\
  exists n,
    files (logged "error downloading disk full" w3) !! "a.jpg"
    = Some (take n [x01; x02]).
Proof.
  intros w w1 w2 w3.
  assert (O : open_wb (obj_name a_jpg) (logged (obj_name a_jpg) w)
              = (Ok tt, w1)) by (vm_compute; reflexivity).
  assert (D : download old_supabase_client (name photos) (obj_name a_jpg) w1
              = (Ok [x01; x02], w2)) by (vm_compute; reflexivity).
  assert (W : write (obj_name a_jpg) [x01; x02] w2
              = (Err (OSError "disk full"), w3)) by (vm_compute; reflexivity).
  split; [exact O|]. split; [exact D|]. split; [exact W|].
  destruct (truncated_file_is_uploaded photos a_jpg w w1 w2 w3 _ _ O D W)
    as (n & Hf & _).
  exists n. exact Hf.
Defined.

(** ** Running over a destination that has the objects already *)

Lemma put_object_refused b path data p :
  is_Some (lookup_object p b path) ->
  exists msg, put_object b path data p = inl msg.
Proof.
  unfold lookup_object, find_bucket.
  induction p as [|k rest IH]; simpl; [intros [x Hx]; discriminate|].
  destruct (String.eqb (bname k) b).
  - destruct (find_object k path); [eauto | intros [x Hx]; discriminate].
  - intros H. destruct (IH H) as [msg ->]. eauto.
Qed.

Lemma download_try_destination bucket obj w :
  new_project (snd (download_try bucket obj w)) = new_project w.
Proof.
  unfold download_try.
  apply (keeps_try (fun w w' => new_project w' = new_project w)).
  - intros; congruence.
  - apply keeps_download_block; try (intros; reflexivity).
    + intros; congruence.
    + intros b path w0.
      destruct (download old_supabase_client b path w0) as [[d|e] w1] eqn:D;
        simpl.
      * apply download_ok in D. tauto.
      * apply download_err in D. tauto.
  - intros e w0. reflexivity.
Qed.

(** The upload of an object that the destination has is refused, whatever
    the local file holds. *)
Lemma upload_refused b path file w :
  is_Some (lookup_object (new_project w) b path) ->
  exists e w1,
    upload new_supabase_client b path file w = (Err e, w1) /\
    new_project w1 = new_project w /\ files w1 = files w.
Proof.
  intros H. rewrite upload_run.
  destruct (files w !! file) as [data|]; [|eauto].
  pose proof (faulted_frame
    (recorded (Storage new_supabase_client (Upload b path file)) w)) as F.
  destruct (faulted _) as [[f|] w0]; simpl in F;
    destruct F as (_ & Fn & Ff & _); [eauto|].
  simpl. rewrite <- Fn in H.
  destruct (put_object_refused b path data _ H) as [msg ->]. eauto.
Qed.

Lemma object_body_existing bucket obj w :
  is_Some (lookup_object (new_project w) (name bucket) (obj_name obj)) ->
  new_project (snd (object_body bucket obj w)) = new_project w /\
  files (snd (object_body bucket obj w)) !! obj_name obj
  = files (snd (download_try bucket obj (logged (obj_name obj) w)))
    !! obj_name obj.
Proof.
  intros H. rewrite object_body_run, upload_try_run, upload_block_run.
  set (w1 := snd (download_try bucket obj (logged (obj_name obj) w))).
  assert (Hn : new_project w1 = new_project w)
    by (subst w1; rewrite download_try_destination; reflexivity).
  destruct (files w1 !! obj_name obj) as [data|] eqn:Hf.
  - rewrite <- Hn in H.
    destruct (upload_refused (name bucket) (obj_name obj) (obj_name obj) w1 H)
      as (e & w2 & -> & Un & Uf).
    simpl. rewrite Un, Uf. auto.
  - simpl. auto.
Qed.

(** X8. An object that the destination has already is not replaced: in the
    cycle of such an object, whatever else fails, the destination project
    is left exactly as it was; and when the download block completed, the
    downloaded bytes are left behind in the local file of the object's
    name. *)
Theorem existing_object_is_not_replaced
    (bucket : Bucket) (obj : Obj) (w : world) :
  is_Some (lookup_object (new_project w) (name bucket) (obj_name obj)) ->
  let done := snd (object_body bucket obj w) in
  new_project done = new_project w /\
  forall w1,
    download_block bucket obj (logged (obj_name obj) w) = (Ok tt, w1) ->
    exists data,
      lookup_object (old_project w) (name bucket) (obj_name obj) = Some data /\
      files done !! obj_name obj = Some data.
Proof.
  intros H done. destruct (object_body_existing bucket obj w H) as [Hn Hf].
  split; [exact Hn|]. intros w1 D. subst done. rewrite Hf.
  rewrite download_try_run, D. simpl.
  apply download_block_ok in D. destruct D as (data & L & F & _).
  exists data. auto.
Qed.

Lemma existing_object_is_not_replaced_witness :
  let w := start source_photos [] in
  is_Some (lookup_object (new_project w) "photos" "a.jpg") /\
  new_project (snd (object_body photos a_jpg w)) = source_photos.
Proof.
  intros w.
  assert (H : is_Some (lookup_object (new_project w) (name photos)
                         (obj_name a_jpg))) by (vm_compute; eauto).
  split; [exact H|].
  exact (proj1 (existing_object_is_not_replaced photos a_jpg w H)).
Defined.

Lemma for_each_objects_existing bucket objects w :
  Forall (fun o => is_Some (lookup_object (new_project w) (name bucket)
                              (obj_name o))) objects ->
  new_project (snd (for_each objects (object_body bucket) w)) = new_project w.
Proof.
  revert w. induction objects as [|o rest IH]; intros w H; simpl;
    [reflexivity|].
  rewrite bind_run. inversion H as [|? ? Ho Hrest]; subst.
  destruct (object_body_existing bucket o w Ho) as [Hn _].
  pose proof (object_body_returns bucket o w) as R.
  destruct (object_body bucket o w) as [[[]|e] w1]; [|discriminate].
  simpl in Hn. rewrite IH; [exact Hn|]. rewrite Hn. exact Hrest.
Qed.

Lemma create_try_existing bucket w :
  is_Some (find_bucket (new_project w) (name bucket)) ->
  new_project (snd (create_try bucket w)) = new_project w /\
  old_project (snd (create_try bucket w)) = old_project w.
Proof.
  intros [k Hk]. unfold create_try, try_except. rewrite create_bucket_run.
  pose proof (faulted_frame
    (recorded (Storage new_supabase_client
                 (CreateBucket (name bucket) (public bucket))) w)) as F.
  destruct (faulted _) as [[f|] w0]; simpl in F;
    destruct F as (Fo & Fn & _); simpl; [auto|].
  rewrite Fn, Hk. simpl. auto.
Qed.

Lemma already_migrated_same w w' :
  old_project w' = old_project w -> new_project w' = new_project w ->
  already_migrated w -> already_migrated w'.
Proof. unfold already_migrated. intros -> ->. auto. Qed.

Lemma bucket_body_existing bucket w :
  already_migrated w ->
  new_project (snd (bucket_body bucket w)) = new_project w.
Proof.
  intros H. rewrite bucket_body_run.
  destruct (list_objects _ _ _) as [[objects|e] w1] eqn:L.
  - apply list_objects_ok in L.
    destruct L as (k & Hk & -> & Lo & Ln & _). simpl in Hk, Lo, Ln.
    apply find_some in Hk. destruct Hk as [Hin Hb].
    apply String.eqb_eq in Hb. destruct (H k Hin) as [Hbucket Hobjects].
    rewrite Hb in Hbucket, Hobjects. rewrite <- Ln in Hbucket.
    destruct (create_try_existing bucket w1 Hbucket) as [Cn Co].
    rewrite for_each_objects_existing; [congruence|].
    apply List.Forall_forall. intros o Ho. apply in_map_iff in Ho.
    destruct Ho as (x & <- & Hx). simpl. rewrite Cn, Ln. auto.
  - destruct (added_bucket_body_err bucket w e w1 L) as [_ Hn]. exact Hn.
Qed.

(** X9. Running the loop again changes nothing in the destination: when
    the destination has every bucket and every object of the source by
    name, then, whatever fails, the destination project at the end of the
    run is exactly what it was at the start. *)
Theorem rerun_leaves_destination_unchanged (w : world) :
  already_migrated w ->
  new_project (snd (migrate w)) = new_project w.
Proof.
  intros H. unfold migrate. rewrite bind_run, list_buckets_run.
  pose proof (faulted_frame (recorded (Storage old_supabase_client ListBuckets) w))
    as F.
  destruct (faulted _) as [[f|] w0]; simpl in F;
    destruct F as (Fo & Fn & _); [exact Fn|].
  rewrite <- Fn. apply (already_migrated_same w w0 Fo Fn) in H.
  generalize (map describe_bucket (project_of old_supabase_client w0)).
  clear Fo Fn. intros buckets. revert w0 H.
  induction buckets as [|b rest IH]; intros w0 H; simpl; [reflexivity|].
  rewrite bind_run.
  pose proof (bucket_body_existing b w0 H) as Hn.
  destruct (source_frame_bucket_body b w0) as [Ho _].
  destruct (bucket_body b w0) as [[[]|e] w1]; simpl in *; [|exact Hn].
  rewrite IH; [exact Hn|]. apply (already_migrated_same w0 w1 Ho Hn H).
Qed.

Lemma rerun_leaves_destination_unchanged_witness :
  let w := start source_photos [] in
  already_migrated w /\ new_project (snd (migrate w)) = source_photos.
Proof.
  intros w.
  assert (H : already_migrated w).
  { intros k [<-|[]]. split; [vm_compute; eauto|].
    intros o [<-|[<-|[]]]; vm_compute; eauto. }
  split; [exact H|].
  exact (rerun_leaves_destination_unchanged w H).
Defined.

(** ** A run in which nothing fails *)

Lemma faulted_none w : pending w = [] -> faulted w = (None, w).
Proof. intros H. unfold faulted. rewrite H. reflexivity. Qed.

(** In a list without two elements of one name, looking for the name of an
    element finds that element. *)
Lemma find_self {A} (f : A -> string) (l : list A) (x : A) :
  NoDup (map f l) -> In x l ->
  find (fun y => String.eqb (f y) (f x)) l = Some x.
Proof.
  induction l as [|y l IH]; simpl; [intros _ []|].
  intros Hnd Hin. apply NoDup_cons in Hnd. destruct Hnd as [Hy Hnd].
  destruct (String.eqb_spec (f y) (f x)) as [E|E].
  - destruct Hin as [->|Hin]; [reflexivity|].
    exfalso. apply Hy. rewrite E. apply list_elem_of_In, in_map. exact Hin.
  - destruct Hin as [->|Hin]; [congruence | auto].
Qed.

Lemma find_absent {A} (f : A -> string) (l : list A) (n : string) :
  ~ In n (map f l) -> find (fun y => String.eqb (f y) n) l = None.
Proof.
  induction l as [|y l IH]; simpl; [reflexivity|]. intros H.
  destruct (String.eqb_spec (f y) n) as [E|E]; [exfalso; auto|].
  apply IH. auto.
Qed.

(** In a list without repetition what stands before an element differs
    from it. *)
Lemma NoDup_before {A} (l l' : list A) (x : A) :
  NoDup (l ++ x :: l') -> ~ In x l.
Proof.
  intros H Hx. apply NoDup_app in H. destruct H as (_ & H & _).
  apply list_elem_of_In in Hx. apply (H x Hx). left.
Qed.

(** Storing into the last bucket of the project, the only one of its name. *)
Lemma put_object_last pre kb path data :
  ~ In (bname kb) (map bname pre) ->
  find_object kb path = None ->
  put_object (bname kb) path data (pre ++ [kb])
  = inr (pre ++ [{| bname := bname kb; bpublic := bpublic kb;
                    bobjects := bobjects kb
                                ++ [{| oname := path; ocontent := data |}] |}]).
Proof.
  intros Hpre Hobj. induction pre as [|k pre IH]; simpl.
  - rewrite String.eqb_refl, Hobj. reflexivity.
  - destruct (String.eqb_spec (bname k) (bname kb)) as [E|E].
    + exfalso. apply Hpre. simpl. auto.
    + rewrite IH; [reflexivity|]. intros H. apply Hpre. simpl. auto.
Qed.

(** One cycle in which nothing fails, the destination accepting the
    object. *)
Lemma cycle_fault_free bucket obj w data p' :
  pending w = [] ->
  lookup_object (old_project w) (name bucket) (obj_name obj) = Some data ->
  put_object (name bucket) (obj_name obj) data (new_project w) = inr p' ->
  exists w',
    object_body bucket obj w = (Ok tt, w') /\
    new_project w' = p' /\ old_project w' = old_project w /\
    pending w' = [] /\ files w' = delete (obj_name obj) (files w).
Proof.
  intros Hp Hl Hput.
  rewrite object_body_run, download_try_run, download_block_run, open_wb_run.
  rewrite faulted_none by exact Hp. rewrite download_run.
  rewrite faulted_none by exact Hp. simpl project_of. simpl old_project.
  rewrite Hl, write_run, faulted_none by exact Hp. simpl snd.
  rewrite upload_try_run, upload_block_run. simpl files.
  rewrite lookup_insert_eq, upload_run. simpl files.
  rewrite lookup_insert_eq, faulted_none by exact Hp.
  simpl project_of. simpl new_project. rewrite Hput.
  eexists. split; [reflexivity|]. simpl.
  repeat split; try assumption.
  rewrite !delete_insert_eq. reflexivity.
Qed.

(** The objects of one bucket, the bucket being the last of the
    destination and holding the objects [acc] copied so far. *)
Lemma objects_fault_free bucket k pre pub :
  forall rest acc w,
    pending w = [] ->
    find_bucket (old_project w) (name bucket) = Some k ->
    NoDup (map oname (bobjects k)) ->
    bobjects k = acc ++ rest ->
    new_project w
    = pre ++ [{| bname := name bucket; bpublic := pub; bobjects := acc |}] ->
    ~ In (name bucket) (map bname pre) ->
    exists w',
      for_each (map describe_object rest) (object_body bucket) w = (Ok tt, w')
      /\ new_project w'
         = pre ++ [{| bname := name bucket; bpublic := pub;
                      bobjects := acc ++ rest |}]
      /\ old_project w' = old_project w /\ pending w' = []
      /\ files w' = remove_all (map oname rest) (files w).
Proof.
  induction rest as [|o rest IH]; intros acc w Hp Hk Hnd Hobjs Hnew Hpre.
  - exists w. rewrite app_nil_r. repeat split; assumption.
  - assert (Hfresh : ~ In (oname o) (map oname acc)).
    { rewrite Hobjs, map_app in Hnd. simpl in Hnd.
      apply (NoDup_before _ _ _ Hnd). }
    assert (Hl : lookup_object (old_project w) (name bucket) (oname o)
                 = Some (ocontent o)).
    { unfold lookup_object. rewrite Hk. unfold find_object.
      rewrite find_self; [reflexivity | exact Hnd |].
      rewrite Hobjs. apply in_or_app. simpl. auto. }
    assert (Hput : put_object (name bucket) (oname o) (ocontent o)
                     (new_project w)
                   = inr (pre ++ [{| bname := name bucket; bpublic := pub;
                                     bobjects := acc ++ [o] |}])).
    { rewrite Hnew.
      rewrite (put_object_last pre
                 {| bname := name bucket; bpublic := pub; bobjects := acc |});
        [destruct o; reflexivity | exact Hpre |].
      unfold find_object. simpl. apply find_absent. exact Hfresh. }
    destruct (cycle_fault_free bucket (describe_object o) w _ _ Hp Hl Hput)
      as (w1 & Hb & Hn1 & Ho1 & Hp1 & Hf1).
    destruct (IH (acc ++ [o]) w1) as (w' & Hr & Hn' & Ho' & Hp' & Hf');
      try assumption.
    + rewrite Ho1. exact Hk.
    + rewrite Hobjs, <- app_assoc. reflexivity.
    + exists w'. simpl. rewrite bind_run, Hb.
      split; [exact Hr|]. rewrite <- app_assoc in Hn'.
      split; [exact Hn'|]. split; [congruence|]. split; [exact Hp'|].
      rewrite Hf', Hf1. reflexivity.
Qed.

(** One bucket of the source in a run in which nothing fails: [done] are
    the buckets copied so far, [d0] what the destination had at the start. *)
Lemma bucket_fault_free d0 done k rest w :
  pending w = [] ->
  old_project w = done ++ k :: rest ->
  well_formed (old_project w) ->
  new_project w = d0 ++ done ->
  (forall n, In n (map bname d0) -> ~ In n (map bname (old_project w))) ->
  exists w',
    bucket_body (describe_bucket k) w = (Ok tt, w') /\
    new_project w' = d0 ++ done ++ [k] /\
    old_project w' = old_project w /\ pending w' = [] /\
    files w' = remove_all (map oname (bobjects k)) (files w).
Proof.
  intros Hp Hold [Hnames Hobjs] Hnew Hd0.
  assert (Hin : In k (old_project w))
    by (rewrite Hold; apply in_or_app; simpl; auto).
  assert (Hk : find_bucket (old_project w) (bname k) = Some k)
    by (apply (find_self bname); assumption).
  assert (Habs : ~ In (bname k) (map bname (d0 ++ done))).
  { rewrite map_app. intros H. apply in_app_or in H. destruct H as [H|H].
    - apply (Hd0 _ H). apply in_map. exact Hin.
    - rewrite Hold, map_app in Hnames. simpl in Hnames.
      apply (NoDup_before _ _ _ Hnames). exact H. }
  rewrite bucket_body_run, list_objects_run.
  rewrite faulted_none by exact Hp. simpl project_of. simpl old_project.
  change (name (describe_bucket k)) with (bname k). rewrite Hk.
  unfold create_try, try_except. rewrite create_bucket_run.
  rewrite faulted_none by exact Hp. simpl project_of. simpl new_project.
  change (name (describe_bucket k)) with (bname k).
  unfold find_bucket at 1. rewrite Hnew, find_absent by exact Habs.
  cbv beta iota. simpl snd.
  match goal with
  | |- context [for_each _ _ ?w0] =>
      destruct (objects_fault_free (describe_bucket k) k (d0 ++ done)
                  (bpublic k) (bobjects k) [] w0)
        as (w' & Hr & Hn' & Ho' & Hp' & Hf')
  end; simpl; try assumption; try reflexivity.
  - apply (proj1 (List.Forall_forall _ _) Hobjs k Hin).
  - exists w'. change (fun o => {| obj_name := oname o |}) with describe_object.
    split; [exact Hr|]. simpl in *.
    split; [rewrite Hn', <- app_assoc; destruct k; reflexivity|].
    repeat split; assumption.
Qed.

Lemma buckets_fault_free d0 :
  forall rest done w,
    pending w = [] ->
    old_project w = done ++ rest ->
    well_formed (old_project w) ->
    new_project w = d0 ++ done ->
    (forall n, In n (map bname d0) -> ~ In n (map bname (old_project w))) ->
    exists w',
      for_each (map describe_bucket rest) bucket_body w = (Ok tt, w') /\
      new_project w' = d0 ++ old_project w /\
      old_project w' = old_project w /\ pending w' = [] /\
      files w' = remove_all (all_object_names rest) (files w).
Proof.
  induction rest as [|k rest IH]; intros done w Hp Hold Hwf Hnew Hd0.
  - exists w. rewrite app_nil_r in Hold. rewrite Hold.
    repeat split; assumption.
  - destruct (bucket_fault_free d0 done k rest w Hp Hold Hwf Hnew Hd0)
      as (w1 & Hb & Hn1 & Ho1 & Hp1 & Hf1).
    destruct (IH (done ++ [k]) w1) as (w' & Hr & Hn' & Ho' & Hp' & Hf');
      try assumption.
    + rewrite Ho1, Hold, <- app_assoc. reflexivity.
    + rewrite Ho1. exact Hwf.
    + rewrite Ho1. exact Hd0.
    + exists w'. simpl. rewrite bind_run, Hb.
      split; [exact Hr|]. split; [congruence|]. split; [congruence|].
      split; [exact Hp'|].
      rewrite Hf', Hf1. unfold all_object_names, remove_all. simpl.
      rewrite fold_left_app. reflexivity.
Qed.

(** X10. A run of the loop in which nothing fails copies the project: when
    the source has no two buckets of one name and no bucket has two objects
    of one name, the destination has no bucket with the name of a bucket of
    the source, and no call is hit by a fault, the loop returns; the
    destination then has its former buckets followed by those of the
    source, with the same visibility, the same objects in the same order
    and the same bytes; the source is as it was; and of the working
    directory exactly the files with the name of an object of the source
    are gone. *)
Theorem fault_free_run_copies_the_project (w : world) :
  well_formed (old_project w) ->
  (forall n, In n (map bname (new_project w)) ->
             ~ In n (map bname (old_project w))) ->
  pending w = [] ->
  fst (migrate w) = Ok tt /\
  new_project (snd (migrate w)) = new_project w ++ old_project w /\
  old_project (snd (migrate w)) = old_project w /\
  files (snd (migrate w))
  = remove_all (all_object_names (old_project w)) (files w).
Proof.
  intros Hwf Hd0 Hp. unfold migrate.
  rewrite bind_run, list_buckets_run, faulted_none by exact Hp.
  simpl project_of. simpl old_project.
  destruct (buckets_fault_free (new_project w) (old_project w) []
              (recorded (Storage old_supabase_client ListBuckets) w))
    as (w' & Hr & Hn & Ho & _ & Hf); simpl; try assumption;
    try reflexivity.
  - symmetry. apply app_nil_r.
  - rewrite Hr. simpl in *. auto.
Qed.

Lemma fault_free_run_copies_the_project_witness :
  let w := start empty_photos_docs [] in
  well_formed (old_project w) /\
  (forall n, In n (map bname (new_project w)) ->
             ~ In n (map bname (old_project w))) /\
  pending w = [] /\
  new_project (snd (migrate w)) = empty_photos_docs ++ source_photos.
Proof.
  intros w.
  assert (Hwf : well_formed (old_project w)).
  { split; simpl; repeat constructor; intros H;
      apply list_elem_of_In in H; simpl in H; intuition discriminate. }
  assert (Hd : forall n, In n (map bname (new_project w)) ->
                         ~ In n (map bname (old_project w))).
  { intros n [<-|[]] [H|[]]. discriminate. }
  assert (Hp : pending w = []) by reflexivity.
  split; [exact Hwf|]. split; [exact Hd|]. split; [exact Hp|].
  exact (proj1 (proj2 (fault_free_run_copies_the_project w Hwf Hd Hp))).
Defined.

(** ** What the log of one cycle tells *)

Lemma download_block_stdout bucket obj w :
  stdout (snd (download_block bucket obj w)) = stdout w.
Proof.
  rewrite download_block_run, open_wb_run. pose proof (faulted_frame w) as F.
  destruct (faulted w) as [[f|] wa]; simpl in F;
    destruct F as (_ & _ & _ & Fs & _); [exact Fs|].
  destruct (download _ _ _ _) as [[res|e] wc] eqn:D.
  - apply download_ok in D. destruct D as (_ & _ & _ & _ & Ds & _).
    simpl in Ds. rewrite write_run. pose proof (faulted_frame wc) as G.
    destruct (faulted wc) as [[f|] wd]; simpl in G;
      destruct G as (_ & _ & _ & Gs & _); simpl; congruence.
  - apply download_err in D. destruct D as (_ & _ & _ & Ds & _).
    simpl in *. congruence.
Qed.

Lemma upload_block_stdout bucket obj w :
  stdout (snd (upload_block bucket obj w)) = stdout w.
Proof.
  rewrite upload_block_run.
  destruct (files w !! obj_name obj); [|reflexivity].
  destruct (upload _ _ _ _ w) as [[[]|e] w1] eqn:U; simpl.
  - apply upload_ok in U. destruct U as (d & _ & _ & _ & _ & _ & _ & Us & _).
    exact Us.
  - apply upload_err in U. tauto.
Qed.

(** X11. The log of a cycle shows the name of the object and nothing else
    exactly when both blocks of the cycle completed: every block that
    fails leaves its line in the log, and no line is written otherwise. *)
Theorem clean_log_iff_both_blocks_complete
    (bucket : Bucket) (obj : Obj) (w : world) :
  stdout (snd (object_body bucket obj w)) = stdout w ++ [obj_name obj]
  <-> exists w1 w2,
        download_block bucket obj (logged (obj_name obj) w) = (Ok tt, w1) /\
        upload_block bucket obj w1 = (Ok tt, w2).
Proof.
  rewrite object_body_run, download_try_run.
  pose proof (download_block_stdout bucket obj (logged (obj_name obj) w)) as D.
  destruct (download_block _ _ _) as [[[]|e] w1]; simpl in D; simpl snd.
  - rewrite upload_try_run.
    pose proof (upload_block_stdout bucket obj w1) as U.
    destruct (upload_block bucket obj w1) as [[[]|e] w2] eqn:E; simpl in U;
      simpl.
    + split; [intros _; exists w1, w2; auto | intros _; congruence].
    + split.
      * intros H. apply (f_equal length) in H. rewrite U, D in H.
        rewrite !length_app in H. simpl in H. lia.
      * intros (w1' & w2' & [= <-] & H). rewrite E in H. discriminate.
  - split.
    + intros H. apply (f_equal length) in H. rewrite upload_try_run in H.
      pose proof (upload_block_stdout bucket obj
                    (logged ("error downloading " +:+ str e) w1)) as U.
      destruct (upload_block _ _ _) as [[[]|e'] w2]; simpl in U, H;
        rewrite U, D in H; rewrite !length_app in H; simpl in H; lia.
    + intros (w1' & w2' & H & _). discriminate.
Qed.
